(** * probe-cli: the instrumented transport layer

    A shallow embedding of
    - [internal/netxlite/utls.go]: [NewUTLSConn] and [HandshakeContext];
    - the conn tracing of package measurexlite: the stream and datagram
      connection wrappers of a [Trace], the bytes-received map, the
      network-event channel and the construction of archival events.

    Go values are modelled as follows.  An interface or pointer that may be
    nil is an [option]; a call that may panic returns a [result]; a [map] is
    a [gmap]; a slice is a header into a heap of backing arrays, so that
    aliasing is visible; a buffered channel is its queue with its capacity;
    [int] and [int64] are [Z], with the 64-bit wrap-around written out where
    the code adds. *)

From Stdlib Require Import ZArith Strings.Byte Strings.Ascii.
From stdpp Require Import gmap strings list fin_maps sorting.

Set Warnings "-register-all,-clear-no-such-hyp".

Local Open Scope string_scope.
Local Open Scope Z_scope.
Local Open Scope list_scope.

(** ** Go basics shared by both packages *)

(** The error values that occur in this code.  [errors.New] gives every
    sentinel an identity of its own, hence one constructor per sentinel;
    [fmt.Errorf] with the verb [%w] keeps the wrapped error. *)
Inductive error : Type :=
  | errUTLSIncompatibleStdlibConfig
  | ErrUTLSHandshakePanic
  | context_Canceled
  | context_DeadlineExceeded
  | errors_New (msg : string)
  | fmt_Errorf_w (msg : string) (wrapped : error).

(** [err.Error()]. *)
Definition Error (e : error) : string :=
  match e with
  | errUTLSIncompatibleStdlibConfig => "utls: incompatible stdlib config"
  | ErrUTLSHandshakePanic => "utls: handshake panic"
  | context_Canceled => "context canceled"
  | context_DeadlineExceeded => "context deadline exceeded"
  | errors_New msg => msg
  | fmt_Errorf_w msg _ => msg
  end.

#[global] Instance error_eq_dec : EqDecision error.
Proof. solve_decision. Defined.

(** [errors.Is(err, target)]: walks the chain of wrapped errors. *)
Fixpoint errors_Is (e target : error) : bool :=
  if decide (e = target) then true
  else match e with
       | fmt_Errorf_w _ inner => errors_Is inner target
       | _ => false
       end.

(** The outcome of a Go call that may panic. *)
Inductive result (A : Type) : Type :=
  | Return (a : A)
  | Panic.
Arguments Return {A} a.
Arguments Panic {A}.

(** ** Package netxlite: utls.go *)
Module netxlite.

(** What [reflect] sees of a struct field.  [IsZero] only needs to know the
    kind of the value: a boolean, an integer, a string, a value that is nil
    or not (pointer, func, interface, map, slice, chan), or an array or
    struct, which is zero when all its elements are. *)
Inductive reflect_Value : Type :=
  | VBool (b : bool)
  | VInt (n : Z)
  | VString (s : string)
  | VNilable (isNil : bool)
  | VAggregate (elems : list reflect_Value).

(** [reflect.Value.IsZero]. *)
Fixpoint IsZero (v : reflect_Value) : bool :=
  match v with
  | VBool b => negb b
  | VInt n => n =? 0
  | VString s => bool_decide (s = EmptyString)
  | VNilable isNil => isNil
  | VAggregate elems => forallb IsZero elems
  end.

(** [*x509.CertPool]: nil or the address of a pool. *)
Definition CertPool_ptr : Type := option positive.

(** [crypto/tls.Config].  The five fields that [NewUTLSConn] reads by name
    are typed as in Go; the package [crypto/tls] is not part of this
    repository, so its remaining fields, exported or not, are carried as
    [otherFields], in declaration order, each with its name and what
    [reflect] sees of its value. *)
Record tls_Config : Type := {
  RootCAs : CertPool_ptr;
  NextProtos : option (list string);
  ServerName : string;
  InsecureSkipVerify : bool;
  DynamicRecordSizingDisabled : bool;
  otherFields : list (string * reflect_Value)
}.

(** The fields visited by [value.Field(idx)] for [idx] from [0] to
    [value.NumField()-1], with [kind.Field(idx).Name].  The five typed
    fields come first, in their relative order in [crypto/tls]; lemma
    [checkFields_unsupported_only] below shows that their position among the
    other fields does not change what the loop returns. *)
Definition reflect_fields (config : tls_Config) : list (string * reflect_Value) :=
  [ ("RootCAs", VNilable (bool_decide (RootCAs config = None)));
    ("NextProtos", VNilable (bool_decide (NextProtos config = None)));
    ("ServerName", VString (ServerName config));
    ("InsecureSkipVerify", VBool (InsecureSkipVerify config));
    ("DynamicRecordSizingDisabled", VBool (DynamicRecordSizingDisabled config)) ]
  ++ otherFields config.

(** The map literal [supportedFields] of [NewUTLSConn]. *)
Definition supportedFields : gmap string bool :=
  <["DynamicRecordSizingDisabled" := true]>
  (<["InsecureSkipVerify" := true]>
  (<["NextProtos" := true]>
  (<["RootCAs" := true]>
  (<["ServerName" := true]> ∅)))).

(** [supportedFields[name]]: indexing a Go map with an absent key gives the
    zero value, here [false]. *)
Definition supportedFields_at (name : string) : bool :=
  default false (supportedFields !! name).

(** The [for idx := 0; idx < value.NumField(); idx++] loop of
    [NewUTLSConn]: [None] when the loop runs to its end, [Some name] when
    it returns the error for the field [name]. *)
Fixpoint checkFields (fields : list (string * reflect_Value)) : option string :=
  match fields with
  | [] => None
  | (name, field) :: rest =>
      if IsZero field then checkFields rest
      else if supportedFields_at name then checkFields rest
      else Some name
  end.

(** [fmt.Errorf("%w: field %s is nonzero", errUTLSIncompatibleStdlibConfig, name)]. *)
Definition incompatibleFieldError (name : string) : error :=
  fmt_Errorf_w
    (Error errUTLSIncompatibleStdlibConfig +:+ ": field " +:+ name +:+ " is nonzero")
    errUTLSIncompatibleStdlibConfig.

(** [utls.Config] as the struct literal of [NewUTLSConn] fills it: the five
    named fields; every other field of the engine's configuration is left
    out of the literal and so keeps its zero value. *)
Record utls_Config : Type := {
  u_DynamicRecordSizingDisabled : bool;
  u_InsecureSkipVerify : bool;
  u_RootCAs : CertPool_ptr;
  u_NextProtos : option (list string);
  u_ServerName : string
}.

(** A [net.Conn] is only stored by this file: a handle. *)
Definition net_Conn : Type := positive.

(** [utls.ClientHelloID]. *)
Record ClientHelloID : Type := {
  Client : string;
  Version : string
}.

(** The [*utls.UConn] returned by [utls.UClient(conn, uConfig, *cid)]: the
    engine is external, the session is what it was built from. *)
Record utls_UConn : Type := {
  uc_conn : net_Conn;
  uc_config : utls_Config;
  uc_clientHelloID : ClientHelloID
}.

Definition utls_UClient (conn : net_Conn) (uConfig : utls_Config) (cid : ClientHelloID)
  : utls_UConn :=
  {| uc_conn := conn; uc_config := uConfig; uc_clientHelloID := cid |}.

(** What calling a [func() error] does: it returns an error value (nil or
    not), it panics (with a non-nil value, as [recover] reports every panic
    since Go 1.21), or it does not return. *)
Inductive call_outcome : Type :=
  | Returns (err : option error)
  | Panics
  | NeverReturns.

Record UTLSConn : Type := {
  UConn : utls_UConn;
  testableHandshake : option call_outcome;
  nc : net_Conn
}.

(** [NewUTLSConn].  [config] and [cid] are pointers: [reflect.ValueOf(nil).Elem().Type()]
    panics, and so does [*cid] on a nil [cid], which is only reached after
    the loop. *)
Definition NewUTLSConn (conn : net_Conn) (config : option tls_Config)
    (cid : option ClientHelloID) : result (option UTLSConn * option error) :=
  match config with
  | None => Panic
  | Some config =>
      match checkFields (reflect_fields config) with
      | Some name => Return (None, Some (incompatibleFieldError name))
      | None =>
          let uConfig :=
            {| u_DynamicRecordSizingDisabled := DynamicRecordSizingDisabled config;
               u_InsecureSkipVerify := InsecureSkipVerify config;
               u_RootCAs := RootCAs config;
               u_NextProtos := NextProtos config;
               u_ServerName := ServerName config |} in
          match cid with
          | None => Panic
          | Some cid =>
              let tlsConn := utls_UClient conn uConfig cid in
              Return (Some {| UConn := tlsConn;
                              testableHandshake := None;
                              nc := conn |}, None)
          end
      end
  end.


(** [handshakefn]: the test override when it is set, the engine's
    [Handshake] otherwise.  The engine is external: what its [Handshake]
    does on a session is the parameter [engine_Handshake]. *)
Definition handshakefn (engine_Handshake : utls_UConn -> call_outcome) (c : UTLSConn)
  : call_outcome :=
  match testableHandshake c with
  | Some f => f
  | None => engine_Handshake (UConn c)
  end.

(** A [context.Context] as [HandshakeContext] uses it: whether [Done()] is
    already closed when the call starts, whether it may still be closed
    later (a cancel function or a deadline is pending), and what [Err()]
    returns once it is closed. *)
Record context : Type := {
  ctx_fired : bool;
  ctx_live : bool;
  ctx_cause : error
}.

(** Where the goroutine started by [HandshakeContext] stands. *)
Inductive goroutine_pc : Type :=
  | PCall                               (* about to run c.handshakefn()() *)
  | PSendResult (err : option error)    (* errch <- (the returned value) *)
  | PDeferred                           (* the deferred func: recover() != nil ? *)
  | PSendPanic                          (* errch <- ErrUTLSHandshakePanic *)
  | PDone.                              (* the goroutine is over *)

(** Where the caller of [HandshakeContext] stands. *)
Inductive caller_pc : Type :=
  | AtSelect
  | Returned (err : option error).

(** The state of one call of [HandshakeContext] after [make(chan error, 1)]
    and the [go] statement: the buffer of [errch], the goroutine with its
    panicking flag, whether [ctx.Done()] is closed, and the caller. *)
Record hstate : Type := HS {
  errch : list (option error);
  worker : goroutine_pc;
  panicking : bool;
  done : bool;
  main : caller_pc
}.

(** [cap(errch)]. *)
Definition errch_cap : nat := 1.

(** A goroutine that ends while panicking terminates the whole process. *)
Definition process_crashed (s : hstate) : Prop :=
  worker s = PDone /\ panicking s = true.

Definition HandshakeContext_init (ctx : context) : hstate :=
  HS [] PCall false (ctx_fired ctx) AtSelect.

(** One step of the goroutine, of the context or of the caller, in any
    interleaving.  [fn] is the outcome of [c.handshakefn()()]. *)
Inductive step (fn : call_outcome) (ctx : context) : hstate -> hstate -> Prop :=
  | step_call_returns ch d m err :
      fn = Returns err ->
      step fn ctx (HS ch PCall false d m) (HS ch (PSendResult err) false d m)
  | step_call_panics ch d m :
      fn = Panics ->
      step fn ctx (HS ch PCall false d m) (HS ch PDeferred true d m)
  | step_send_result ch d m err :
      (length ch < errch_cap)%nat ->
      step fn ctx (HS ch (PSendResult err) false d m) (HS (ch ++ [err]) PDeferred false d m)
  | step_recover_nil ch d m :
      (* recover() returns nil: the goroutine was not panicking *)
      step fn ctx (HS ch PDeferred false d m) (HS ch PDone false d m)
  | step_recover_non_nil ch d m :
      (* recover() returns the panic value and stops the panic *)
      step fn ctx (HS ch PDeferred true d m) (HS ch PSendPanic false d m)
  | step_send_panic ch d m :
      (length ch < errch_cap)%nat ->
      step fn ctx (HS ch PSendPanic false d m)
                  (HS (ch ++ [Some ErrUTLSHandshakePanic]) PDone false d m)
  | step_ctx_fires ch w p m :
      ctx_live ctx = true ->
      step fn ctx (HS ch w p false m) (HS ch w p true m)
  | step_select_errch ch w p d err :
      (* case err = <-errch *)
      step fn ctx (HS (err :: ch) w p d AtSelect) (HS ch w p d (Returned err))
  | step_select_done ch w p :
      (* case <-ctx.Done(): err = ctx.Err() *)
      step fn ctx (HS ch w p true AtSelect) (HS ch w p true (Returned (Some (ctx_cause ctx)))).

(** The states a call of [HandshakeContext] can be in. *)
Definition reachable (fn : call_outcome) (ctx : context) (s : hstate) : Prop :=
  rtc (step fn ctx) (HandshakeContext_init ctx) s.

(** [HandshakeContext] may return [err]. *)
Definition HandshakeContext_may_return (engine_Handshake : utls_UConn -> call_outcome)
    (c : UTLSConn) (ctx : context) (err : option error) : Prop :=
  exists s, reachable (handshakefn engine_Handshake c) ctx s /\ main s = Returned err.

(** *** The vocabulary of the properties, and sample values *)

(** The names that [supportedFields] maps to [true]. *)
Definition allowList : list string :=
  [ "DynamicRecordSizingDisabled"; "InsecureSkipVerify"; "NextProtos";
    "RootCAs"; "ServerName" ].

(** A field that makes [NewUTLSConn] fail: set, and not supported. *)
Definition offending (f : string * reflect_Value) : Prop :=
  IsZero f.2 = false /\ f.1 ∉ allowList.

(** A configuration that sets the five supported fields and nothing else,
    with some of the other fields of [crypto/tls.Config]. *)
Definition config_supported_only : tls_Config :=
  {| RootCAs := Some 7%positive;
     NextProtos := Some ["h2"; "http/1.1"];
     ServerName := "example.org";
     InsecureSkipVerify := true;
     DynamicRecordSizingDisabled := true;
     otherFields :=
       [ ("Rand", VNilable true); ("Time", VNilable true);
         ("Certificates", VNilable true);
         ("GetClientCertificate", VNilable true);
         ("ClientAuth", VInt 0); ("MinVersion", VInt 0);
         ("SessionTicketKey", VAggregate [VInt 0; VInt 0; VInt 0; VInt 0]);
         ("mutex", VAggregate [VAggregate [VInt 0; VInt 0]; VInt 0; VInt 0]) ] |}.

(** The same with a client-certificate callback. *)
Definition config_with_callback : tls_Config :=
  {| RootCAs := Some 7%positive;
     NextProtos := Some ["h2"; "http/1.1"];
     ServerName := "example.org";
     InsecureSkipVerify := true;
     DynamicRecordSizingDisabled := true;
     otherFields :=
       [ ("Rand", VNilable true); ("Time", VNilable true);
         ("Certificates", VNilable true);
         ("GetClientCertificate", VNilable false);
         ("ClientAuth", VInt 0); ("MinVersion", VInt 771);
         ("SessionTicketKey", VAggregate [VInt 0; VInt 0; VInt 0; VInt 0]);
         ("mutex", VAggregate [VAggregate [VInt 0; VInt 0]; VInt 0; VInt 0]) ] |}.

Definition firefox_55 : ClientHelloID := {| Client := "Firefox"; Version := "55" |}.

(** The engine configuration built from [config]. *)
Definition translated (config : tls_Config) : utls_Config :=
  {| u_DynamicRecordSizingDisabled := DynamicRecordSizingDisabled config;
     u_InsecureSkipVerify := InsecureSkipVerify config;
     u_RootCAs := RootCAs config;
     u_NextProtos := NextProtos config;
     u_ServerName := ServerName config |}.

(** The value that the goroutine puts on [errch] when [fn] is over. *)
Definition delivered (fn : call_outcome) (v : option error) : Prop :=
  match fn with
  | Returns err => v = err
  | Panics => v = Some ErrUTLSHandshakePanic
  | NeverReturns => False
  end.

(** The caller is still at the [select], or it left it through the
    [ctx.Done()] case. *)
Definition waiting_or_cancelled (ctx : context) (d : bool) (m : caller_pc) : Prop :=
  m = AtSelect \/ (d = true /\ m = Returned (Some (ctx_cause ctx))).

(** What holds in every state of a call. *)
Definition inv (fn : call_outcome) (ctx : context) (s : hstate) : Prop :=
  (ctx_fired ctx = false -> ctx_live ctx = false -> done s = false)
  /\ (ctx_fired ctx = true -> done s = true)
  /\ match worker s, panicking s with
     | PCall, false => errch s = [] /\ waiting_or_cancelled ctx (done s) (main s)
     | PSendResult err, false =>
         fn = Returns err /\ errch s = [] /\ waiting_or_cancelled ctx (done s) (main s)
     | PDeferred, true | PSendPanic, false =>
         fn = Panics /\ errch s = [] /\ waiting_or_cancelled ctx (done s) (main s)
     | PDeferred, false | PDone, false =>
         exists v, delivered fn v
           /\ ((errch s = [v] /\ waiting_or_cancelled ctx (done s) (main s))
               \/ (errch s = [] /\ main s = Returned v))
     | _, _ => False
     end.

(** Every step uses up one unit: a call is over after five steps at most. *)
Definition steps_left (s : hstate) : nat :=
  (match worker s with
   | PCall => 3
   | PSendResult _ => 2
   | PDeferred => if panicking s then 2 else 1
   | PSendPanic => 1
   | PDone => 0
   end
   + (if done s then 0 else 1)
   + (match main s with AtSelect => 1 | Returned _ => 0 end))%nat.

(** All executions of the call return [err], when they return. *)
Definition returns_only (fn : call_outcome) (ctx : context) (err : option error) : Prop :=
  forall s err', reachable fn ctx s -> main s = Returned err' -> err' = err.

(** A context that is never cancelled, such as [context.Background()]. *)
Definition never_done (ctx : context) : Prop :=
  ctx_fired ctx = false /\ ctx_live ctx = false.

(** A context cancelled before the call. *)
Definition cancelled_ctx : context :=
  {| ctx_fired := true; ctx_live := false; ctx_cause := context_Canceled |}.

Definition background_ctx : context :=
  {| ctx_fired := false; ctx_live := false; ctx_cause := context_Canceled |}.

(** A connection whose test override is the handshake function [f]. *)
Definition conn_with (f : call_outcome) : UTLSConn :=
  {| UConn := {| uc_conn := 1%positive;
                 uc_config := {| u_DynamicRecordSizingDisabled := false;
                                 u_InsecureSkipVerify := false;
                                 u_RootCAs := None;
                                 u_NextProtos := None;
                                 u_ServerName := "example.org" |};
                 uc_clientHelloID := {| Client := "Firefox"; Version := "55" |} |};
     testableHandshake := Some f;
     nc := 1%positive |}.

(** An engine whose own handshake succeeds. *)
Definition engine_ok (_ : utls_UConn) : call_outcome := Returns None.

(** [NetConn]. *)
Definition NetConn (c : UTLSConn) : net_Conn := nc c.

(** [newUTLSConnFactory]: the function it returns, applied to [conn] and
    [config]. *)
Definition newUTLSConnFactory (clientHello : option ClientHelloID) (conn : net_Conn)
    (config : option tls_Config) : result (option UTLSConn * option error) :=
  NewUTLSConn conn config clientHello.

(** A context that is not yet cancelled and may still be. *)
Definition pending_ctx : context :=
  {| ctx_fired := false; ctx_live := true; ctx_cause := context_DeadlineExceeded |}.

(** The goroutine is about to send on [errch]. *)
Definition at_send (w : goroutine_pc) : Prop :=
  w = PSendPanic \/ exists err, w = PSendResult err.

End netxlite.

(** ** Package measurexlite: conn tracing *)
Module measurexlite.

(** *** Slices of strings

    A slice is nil or a header [(array, offset, length, capacity)] into a
    heap of backing arrays: two slices alias when they share an array. *)
Definition loc : Type := positive.

Record slice_hdr : Type := {
  arr : loc;
  off : nat;
  len : nat;
  cap : nat
}.

Definition slice : Type := option slice_hdr.

Definition heap : Type := gmap loc (list string).

(** [len(s)] and [cap(s)]; both are [0] for the nil slice. *)
Definition slice_len (s : slice) : nat := from_option len 0%nat s.
Definition slice_cap (s : slice) : nat := from_option cap 0%nat s.

(** The elements [s[0], ..., s[len(s)-1]] in the heap [h]. *)
Definition elems (h : heap) (s : slice) : list string :=
  match s with
  | None => []
  | Some hd => take (len hd) (drop (off hd) (default [] (h !! arr hd)))
  end.

(** A new backing array holding [contents], and the slice over all of it.
    The literal [[]string{}] is [alloc h []]: a non-nil slice of length and
    capacity [0]. *)
Definition alloc (h : heap) (contents : list string) : slice * heap :=
  let l := fresh (dom h) in
  (Some {| arr := l; off := 0; len := length contents; cap := length contents |},
   <[l := contents]> h).

(** [append(s, xs...)]: with nothing to add it returns [s] itself; when the
    capacity suffices it writes behind [s] in the array of [s]; otherwise
    it moves to a new array.  (The capacity of the new array is at least
    the new length; it is taken equal to it.) *)
Definition append (h : heap) (s : slice) (xs : list string) : slice * heap :=
  match xs with
  | [] => (s, h)
  | _ :: _ =>
      match s with
      | Some hd =>
          if decide (len hd + length xs <= cap hd)%nat then
            (Some {| arr := arr hd; off := off hd;
                     len := len hd + length xs; cap := cap hd |},
             alter (fun a => (take (off hd + len hd) a ++ xs
                              ++ drop (off hd + len hd + length xs) a)%list) (arr hd) h)
          else alloc h (elems h s ++ xs)
      | None => alloc h xs
      end
  end.

(** [s[i] = x]: a store through the slice [s] ([i] in range). *)
Definition store (h : heap) (s : slice_hdr) (i : nat) (x : string) : heap :=
  alter (fun a => <[(off s + i)%nat := x]> a) (arr s) h.

(** [copyAndNormalizeTags]. *)
Definition copyAndNormalizeTags (h : heap) (tags : slice) : slice * heap :=
  let '(tags, h) :=
    if decide (slice_len tags <= 0)%nat then alloc h [] else (tags, h) in
  let '(base, h) := alloc h [] in
  append h base (elems h tags).

(** *** Addresses, connections, events *)

(** A non-nil [net.Addr]: what its two methods return. *)
Record Addr : Type := {
  Network : string;
  String_ : string
}.

(** The interface value [net.Addr]: nil or an address. *)
Definition net_Addr : Type := option Addr.

(** Modelled from the spec: [model.ArchivalNetworkEvent], a struct of the
    package model, whose declaration is not in the sources at hand.  The
    fields are those that the literal of [NewArchivalNetworkEvent] sets,
    which are the fields of the spec's ArchivalEvent.  [T0] and [T] hold
    the durations whose [Seconds()] the code stores; [Failure] is nil on
    success. *)
Record ArchivalNetworkEvent : Type := {
  Address : string;
  Failure : option string;
  NumBytes : Z;
  Operation : string;
  Proto : string;
  T0 : Z;
  T : Z;
  TransactionID : Z;
  Tags : slice
}.

(** Modelled from the spec: the operation names [netxlite.ReadOperation],
    [WriteOperation], [ReadFromOperation] and [WriteToOperation], constants
    of the package netxlite whose declarations are not in the sources at
    hand; the spec lists the operations as read, write, read_from and
    write_to. *)
Definition ReadOperation : string := "read".
Definition WriteOperation : string := "write".
Definition ReadFromOperation : string := "read_from".
Definition WriteToOperation : string := "write_to".

(** Conversion to [int64]: two's complement on 64 bits. *)
Definition int64 (z : Z) : Z := (z + 2 ^ 63) mod 2 ^ 64 - 2 ^ 63.

(** Modelled from the spec: the struct [Trace], declared in a file of the
    package that is not in the sources at hand.  The fields are those that
    the code at hand reads and writes, as the spec's data model has them:
    the transaction index, the time origin, the tags, the bounded queue of
    events ([networkEvent] is the buffer of the channel, oldest event first,
    and [networkEvent_cap] its capacity) and the bytes-received map (its
    mutex is held around every access, each of which is modelled as one
    step). *)
Record Trace : Type := {
  Index : Z;
  ZeroTime : Z;
  tags : slice;
  networkEvent : list ArchivalNetworkEvent;
  networkEvent_cap : nat;
  bytesReceivedMap : gmap string Z
}.

Definition set_networkEvent (tx : Trace) (q : list ArchivalNetworkEvent) : Trace :=
  {| Index := Index tx; ZeroTime := ZeroTime tx; tags := tags tx;
     networkEvent := q; networkEvent_cap := networkEvent_cap tx;
     bytesReceivedMap := bytesReceivedMap tx |}.

Definition set_bytesReceivedMap (tx : Trace) (m : gmap string Z) : Trace :=
  {| Index := Index tx; ZeroTime := ZeroTime tx; tags := tags tx;
     networkEvent := networkEvent tx; networkEvent_cap := networkEvent_cap tx;
     bytesReceivedMap := m |}.

(** The statement [select { case tx.networkEvent <- ev: default: }]: the
    send goes through when the buffer has room (no receiver ever waits on
    this channel: [NetworkEvents] receives with a [default] too), and is
    skipped otherwise. *)
Definition select_send_default (tx : Trace) (ev : ArchivalNetworkEvent) : Trace :=
  if decide (length (networkEvent tx) < networkEvent_cap tx)%nat
  then set_networkEvent tx (networkEvent tx ++ [ev])
  else tx.

(** The [switch network] of [updateBytesReceivedMapNetConn]. *)
Definition normalizeNetwork (network : string) : string :=
  if bool_decide (network = "udp") || bool_decide (network = "udp4")
     || bool_decide (network = "udp6") then "udp"
  else if bool_decide (network = "tcp") || bool_decide (network = "tcp4")
     || bool_decide (network = "tcp6") then "tcp"
  else network.

(** [updateBytesReceivedMapNetConn]. *)
Definition updateBytesReceivedMapNetConn (tx : Trace) (network address : string)
    (count : Z) : Trace :=
  let network := normalizeNetwork network in
  let key := address +:+ " " +:+ network in
  set_bytesReceivedMap tx
    (<[key := int64 (default 0 (bytesReceivedMap tx !! key) + int64 count)]>
       (bytesReceivedMap tx)).

(** [CloneBytesReceivedMap]: the [range] loop inserts every entry into a
    new map. *)
Definition CloneBytesReceivedMap (tx : Trace) : gmap string Z :=
  map_fold (fun key value out => <[key := value]> out) ∅ (bytesReceivedMap tx).

(** [maybeUpdateBytesReceivedMapUDPLikeConn]. *)
Definition maybeUpdateBytesReceivedMapUDPLikeConn (tx : Trace) (addr : net_Addr)
    (count : Z) : Trace :=
  match addr with
  | Some a => updateBytesReceivedMapNetConn tx (Network a) (String_ a) count
  | None => tx
  end.

(** [addrStringIfNotNil]. *)
Definition addrStringIfNotNil (addr : net_Addr) : string :=
  match addr with
  | Some a => String_ a
  | None => EmptyString
  end.

(** The loop of [NetworkEvents] on the buffer [ch] of the channel: the
    result slice and what is left in the buffer. *)
Fixpoint NetworkEvents_loop (ch out : list ArchivalNetworkEvent)
  : list ArchivalNetworkEvent * list ArchivalNetworkEvent :=
  match ch with
  | [] => (out, [])
  | ev :: ch => NetworkEvents_loop ch (out ++ [ev])
  end.

(** [NetworkEvents]. *)
Definition NetworkEvents (tx : Trace) : list ArchivalNetworkEvent * Trace :=
  let '(out, ch) := NetworkEvents_loop (networkEvent tx) [] in
  (out, set_networkEvent tx ch).

(** [FirstNetworkEventOrNil]. *)
Definition FirstNetworkEventOrNil (tx : Trace) : option ArchivalNetworkEvent * Trace :=
  let '(ev, tx) := NetworkEvents tx in
  if decide (length ev < 1)%nat then (None, tx) else (head ev, tx).


(** *** The wrappers

    [World] is the state of everything the wrapped connections act upon
    (the sockets, the buffers, the clock).  A method of the underlying
    connection is a function of the world, which it may change. *)
Section Wrappers.

Context {World : Type}.

(** [NewFailure], of the package's failure.go, which is not in the sources
    at hand: it classifies an error, and is taken as a parameter. *)
Variable NewFailure : option error -> option string.

(** [tx.TimeSince(t)], declared with [Trace] and not in the sources at
    hand: it reads the clock, which is part of the world, and is taken as
    a parameter. *)
Variable TimeSince : World -> Z -> Z.

(** A non-nil [net.Conn], with the methods this file calls. *)
Record net_Conn : Type := {
  conn_Read : list byte -> World -> (Z * option error) * World;
  conn_Write : list byte -> World -> (Z * option error) * World;
  conn_Close : World -> option error * World;
  conn_RemoteAddr : World -> net_Addr
}.

(** A non-nil [model.UDPLikeConn], with the methods this file calls. *)
Record UDPLikeConn : Type := {
  udp_ReadFrom : list byte -> World -> (Z * net_Addr * option error) * World;
  udp_WriteTo : list byte -> net_Addr -> World -> (Z * option error) * World;
  udp_Close : World -> option error * World
}.

(** What a call works on: the [Trace] that the wrapper points to, the heap
    of the tag slices, and the world. *)
Record state : Type := {
  st_tx : Trace;
  st_heap : heap;
  st_world : World
}.

(** [connTrace]; its field [tx] points to the [Trace] of the state. *)
Record connTrace : Type := {
  Conn : net_Conn
}.

(** [udpLikeConnTrace]; its field [tx] points to the [Trace] of the state. *)
Record udpLikeConnTrace : Type := {
  UDPLikeConn_ : UDPLikeConn
}.

(** [MaybeWrapNetConn] and [MaybeWrapUDPLikeConn]. *)
Definition MaybeWrapNetConn (conn : net_Conn) : connTrace := {| Conn := conn |}.
Definition MaybeWrapUDPLikeConn (conn : UDPLikeConn) : udpLikeConnTrace :=
  {| UDPLikeConn_ := conn |}.

(** [MaybeClose]. *)
Definition MaybeClose (conn : option net_Conn) (w : World) : option error * World :=
  match conn with
  | Some conn => conn_Close conn w
  | None => (None, w)
  end.

(** [MaybeCloseUDPLikeConn]. *)
Definition MaybeCloseUDPLikeConn (conn : option UDPLikeConn) (w : World)
  : option error * World :=
  match conn with
  | Some conn => udp_Close conn w
  | None => (None, w)
  end.

(** [NewArchivalNetworkEvent]. *)
Definition NewArchivalNetworkEvent (h : heap) (index started : Z) (operation network
    address : string) (count : Z) (err : option error) (finished : Z) (tags : slice)
  : ArchivalNetworkEvent * heap :=
  let '(tags, h) := copyAndNormalizeTags h tags in
  ({| Address := address;
      Failure := NewFailure err;
      NumBytes := int64 count;
      Operation := operation;
      Proto := network;
      T0 := started;
      T := finished;
      TransactionID := index;
      Tags := tags |}, h).

(** [NewAnnotationArchivalNetworkEvent]. *)
Definition NewAnnotationArchivalNetworkEvent (h : heap) (index time : Z)
    (operation : string) (tags : slice) : ArchivalNetworkEvent * heap :=
  NewArchivalNetworkEvent h index time operation EmptyString EmptyString 0 None time
    tags.

(** [connTrace.Read].  [c.RemoteAddr().Network()] panics when the
    connection has no remote address. *)
Definition Read (c : connTrace) (b : list byte) (s : state)
  : result ((Z * option error) * state) :=
  let tx := st_tx s in
  match conn_RemoteAddr (Conn c) (st_world s) with
  | None => Panic
  | Some remote =>
      let network := Network remote in
      let addr := String_ remote in
      let started := TimeSince (st_world s) (ZeroTime tx) in
      let '((count, err), w) := conn_Read (Conn c) b (st_world s) in
      let finished := TimeSince w (ZeroTime tx) in
      let '(ev, h) :=
        NewArchivalNetworkEvent (st_heap s) (Index tx) started ReadOperation network
          addr count err finished (tags tx) in
      let tx := select_send_default tx ev in
      let tx := updateBytesReceivedMapNetConn tx network addr count in
      Return ((count, err), {| st_tx := tx; st_heap := h; st_world := w |})
  end.

(** [connTrace.Write]. *)
Definition Write (c : connTrace) (b : list byte) (s : state)
  : result ((Z * option error) * state) :=
  let tx := st_tx s in
  match conn_RemoteAddr (Conn c) (st_world s) with
  | None => Panic
  | Some remote =>
      let network := Network remote in
      let addr := String_ remote in
      let started := TimeSince (st_world s) (ZeroTime tx) in
      let '((count, err), w) := conn_Write (Conn c) b (st_world s) in
      let finished := TimeSince w (ZeroTime tx) in
      let '(ev, h) :=
        NewArchivalNetworkEvent (st_heap s) (Index tx) started WriteOperation network
          addr count err finished (tags tx) in
      let tx := select_send_default tx ev in
      Return ((count, err), {| st_tx := tx; st_heap := h; st_world := w |})
  end.

(** [udpLikeConnTrace.ReadFrom]. *)
Definition ReadFrom (c : udpLikeConnTrace) (b : list byte) (s : state)
  : (Z * net_Addr * option error) * state :=
  let tx := st_tx s in
  let started := TimeSince (st_world s) (ZeroTime tx) in
  let '((count, addr, err), w) := udp_ReadFrom (UDPLikeConn_ c) b (st_world s) in
  let finished := TimeSince w (ZeroTime tx) in
  let address := addrStringIfNotNil addr in
  let '(ev, h) :=
    NewArchivalNetworkEvent (st_heap s) (Index tx) started ReadFromOperation "udp"
      address count err finished (tags tx) in
  let tx := select_send_default tx ev in
  let tx := maybeUpdateBytesReceivedMapUDPLikeConn tx addr count in
  ((count, addr, err), {| st_tx := tx; st_heap := h; st_world := w |}).

(** [udpLikeConnTrace.WriteTo].  [addr.String()] panics on a nil [addr]. *)
Definition WriteTo (c : udpLikeConnTrace) (b : list byte) (addr : net_Addr) (s : state)
  : result ((Z * option error) * state) :=
  let tx := st_tx s in
  let started := TimeSince (st_world s) (ZeroTime tx) in
  match addr with
  | None => Panic
  | Some a =>
      let address := String_ a in
      let '((count, err), w) := udp_WriteTo (UDPLikeConn_ c) b addr (st_world s) in
      let finished := TimeSince w (ZeroTime tx) in
      let '(ev, h) :=
        NewArchivalNetworkEvent (st_heap s) (Index tx) started WriteToOperation "udp"
          address count err finished (tags tx) in
      let tx := select_send_default tx ev in
      Return ((count, err), {| st_tx := tx; st_heap := h; st_world := w |})
  end.

(** A caller of the wrappers makes calls of the four instrumented methods,
    one after the other. *)
Inductive call : Type :=
  | CallRead (c : connTrace) (b : list byte)
  | CallWrite (c : connTrace) (b : list byte)
  | CallReadFrom (c : udpLikeConnTrace) (b : list byte)
  | CallWriteTo (c : udpLikeConnTrace) (b : list byte) (addr : net_Addr).

(** The name of the operation in the event of a call. *)
Definition call_Operation (k : call) : string :=
  match k with
  | CallRead _ _ => ReadOperation
  | CallWrite _ _ => WriteOperation
  | CallReadFrom _ _ => ReadFromOperation
  | CallWriteTo _ _ _ => WriteToOperation
  end.

(** The state after one call, whatever it returned. *)
Definition run_call (k : call) (s : state) : result state :=
  match k with
  | CallRead c b =>
      match Read c b s with Return (_, s) => Return s | Panic => Panic end
  | CallWrite c b =>
      match Write c b s with Return (_, s) => Return s | Panic => Panic end
  | CallReadFrom c b => Return (ReadFrom c b s).2
  | CallWriteTo c b addr =>
      match WriteTo c b addr s with Return (_, s) => Return s | Panic => Panic end
  end.

(** The state after a sequence of calls; a panic ends it. *)
Fixpoint run_calls (ks : list call) (s : state) : result state :=
  match ks with
  | [] => Return s
  | k :: ks =>
      match run_call k s with
      | Return s => run_calls ks s
      | Panic => Panic
      end
  end.

End Wrappers.

Arguments net_Conn World : clear implicits.
Arguments UDPLikeConn World : clear implicits.
Arguments state World : clear implicits.
Arguments connTrace World : clear implicits.
Arguments udpLikeConnTrace World : clear implicits.
Arguments call World : clear implicits.

(** A sequence of calls of [updateBytesReceivedMapNetConn], each with its
    network, address and count. *)
Definition record_all (tx : Trace) (records : list (string * string * Z)) : Trace :=
  foldl (fun tx r => updateBytesReceivedMapNetConn tx r.1.1 r.1.2 r.2) tx records.

(** The key of the bytes-received map for a network and an address. *)
Definition key_of (network address : string) : string :=
  address +:+ " " +:+ normalizeNetwork network.

(** The sum of the counts recorded under the key [key]. *)
Definition recorded_under (key : string) (records : list (string * string * Z)) : Z :=
  foldr (fun r acc => if decide (key_of r.1.1 r.1.2 = key) then r.2 + acc else acc)
    0 records.

(** *** The vocabulary of the properties, and sample values *)

(** A world that is only a clock, in nanoseconds. *)
Definition clock_TimeSince (w : Z) (t : Z) : Z := w - t.

(** A classification of errors by their message. *)
Definition failure_of_message (err : option error) : option string :=
  Error <$> err.

Definition peer : Addr := {| Network := "tcp4"; String_ := "1.2.3.4:443" |}.

(** A stream connection to [peer] whose reads and writes take a
    millisecond; reads fill the buffer, writes fail. *)
Definition sample_conn : net_Conn Z :=
  {| conn_Read := fun b w => ((Z.of_nat (length b), None), w + 1000000);
     conn_Write := fun b w => ((0, Some (errors_New "broken pipe")), w + 1000000);
     conn_Close := fun w => (Some (errors_New "use of closed network connection"), w);
     conn_RemoteAddr := fun _ => Some peer |}.

(** A datagram socket whose reads fail without a sender. *)
Definition sample_udp : UDPLikeConn Z :=
  {| udp_ReadFrom := fun b w => ((0, None, Some (errors_New "i/o timeout")), w + 1000000);
     udp_WriteTo := fun b addr w => ((Z.of_nat (length b), None), w + 1000000);
     udp_Close := fun w => (None, w) |}.

Definition sample_event : ArchivalNetworkEvent :=
  {| Address := "1.2.3.4:443"; Failure := None; NumBytes := 10;
     Operation := "read"; Proto := "tcp"; T0 := 0; T := 5;
     TransactionID := 1; Tags := None |}.

Definition other_event : ArchivalNetworkEvent :=
  {| Address := "1.2.3.4:443"; Failure := Some "eof_error"; NumBytes := 0;
     Operation := "read"; Proto := "tcp"; T0 := 5; T := 9;
     TransactionID := 1; Tags := None |}.

(** A new trace, with room for [n] events. *)
Definition new_trace (n : nat) : Trace :=
  {| Index := 1; ZeroTime := 0; tags := None; networkEvent := [];
     networkEvent_cap := n; bytesReceivedMap := ∅ |}.

(** A trace whose channel, of capacity two, is full. *)
Definition full_trace : Trace :=
  {| Index := 1; ZeroTime := 0; tags := None;
     networkEvent := [sample_event; other_event];
     networkEvent_cap := 2;
     bytesReceivedMap := <["1.2.3.4:443 tcp" := 10]> ∅ |}.

Definition state_of (tx : Trace) : state Z :=
  {| st_tx := tx; st_heap := ∅; st_world := 0 |}.

Definition buffer : list byte := [x00; x00; x00; x00].

(** A slice whose array is allocated and long enough for its window. *)
Definition valid (h : heap) (s : slice) : Prop :=
  match s with
  | None => True
  | Some hd =>
      exists a : list string,
        (h !! arr hd) = Some a
        /\ (len hd <= cap hd)%nat /\ (off hd + cap hd <= length a)%nat
  end.

(** A heap with one array, holding twice the same tag, and the slice over
    it. *)
Definition heap_with_repeated_tag : heap := <[1%positive := ["web"; "web"]]> ∅.
Definition repeated_tag : slice :=
  Some {| arr := 1%positive; off := 0; len := 2; cap := 2 |}.

Definition resolver : Addr := {| Network := "udp4"; String_ := "8.8.8.8:53" |}.

(** A datagram socket whose reads return four bytes from [resolver]. *)
Definition answering_udp : UDPLikeConn Z :=
  {| udp_ReadFrom := fun b w => ((4, Some resolver, None), w + 1000000);
     udp_WriteTo := fun b addr w => ((Z.of_nat (length b), None), w + 1000000);
     udp_Close := fun w => (None, w) |}.

(** A read, a write and a datagram read, in this order. *)
Definition three_calls : list (call Z) :=
  [ CallRead (MaybeWrapNetConn sample_conn) buffer;
    CallWrite (MaybeWrapNetConn sample_conn) buffer;
    CallReadFrom (MaybeWrapUDPLikeConn answering_udp) buffer ].

End measurexlite.

(** ** Package oohelperd: ipinfo.go *)
Module oohelperd.

(** [model.THIPInfo], with the two fields that the code sets and reads. *)
Record THIPInfo : Type := {
  ASN : Z;
  Flags : Z
}.

(** [ctrlRequest], with the field that [newIPInfo] reads. *)
Record ctrlRequest : Type := {
  TCPConnect : list string
}.

(** A [*url.URL] as [ipInfoToEndpoints] uses it: its field [Scheme] and
    what its method [Port()] returns. *)
Record url_URL : Type := {
  Scheme : string;
  Port : string
}.

Record endpointInfo : Type := {
  Addr : string;
  Epnt : string;
  TLS : bool
}.

#[global] Instance endpointInfo_eq_dec : EqDecision endpointInfo.
Proof. solve_decision. Defined.

(** [net.JoinHostPort]: "host:port", and "[host]:port" when the host
    contains a colon. *)
Definition contains_colon (s : string) : bool :=
  existsb (fun c => Ascii.eqb c ":"%char) (String.list_ascii_of_string s).

Definition net_JoinHostPort (host port : string) : string :=
  if contains_colon host then "[" +:+ host +:+ "]:" +:+ port
  else host +:+ ":" +:+ port.

(** The [less] function given to [sort.SliceStable]:
    [strings.Compare(out[i].Epnt, out[j].Epnt) < 0], the order of the bytes. *)
Definition less (a b : endpointInfo) : bool := String.ltb (Epnt a) (Epnt b).

(** [sort.SliceStable]: elements that compare equal keep their order.  A
    stable sort is determined by what it returns, so it is modelled by the
    stable insertion sort. *)
Fixpoint insert_stable (x : endpointInfo) (l : list endpointInfo) : list endpointInfo :=
  match l with
  | [] => [x]
  | y :: l' => if less y x then y :: insert_stable x l' else x :: y :: l'
  end.

Definition sort_SliceStable (l : list endpointInfo) : list endpointInfo :=
  foldr insert_stable [] l.

(** The order of the sorted endpoints: by [Epnt], byte-wise. *)
Definition by_Epnt (a b : endpointInfo) : Prop := (Epnt a ≤ Epnt b)%string.

(** The ports that [ipInfoToEndpoints] chooses. *)
Definition ports_of (URL : url_URL) : list string :=
  if negb (bool_decide (Port URL = EmptyString)) then [Port URL]
  else if bool_decide (Scheme URL = "https") then ["443"]
  else if bool_decide (Scheme URL = "http") then ["80"; "443"]
  else [].

Section IPInfo.

(** Of the standard library: [net.SplitHostPort], [None] when it returns
    an error, and whether [net.ParseIP] returns a non-nil address. *)
Variable net_SplitHostPort : string -> option (string * string).
Variable net_ParseIP : string -> bool.

(** Of packages of this repository that are not in the sources at hand:
    [netxlite.IsBogon], the number that [geoipx.LookupASN] returns (zero
    on failure), and the three flags of the package model. *)
Variable IsBogon : string -> bool.
Variable LookupASN : string -> Z.
Variable THIPInfoFlagResolvedByProbe : Z.
Variable THIPInfoFlagResolvedByTH : Z.
Variable THIPInfoFlagIsBogon : Z.

(** [discoveredby[addr] |= flag]. *)
Definition or_flag (discoveredby : gmap string Z) (addr : string) (flag : Z)
  : gmap string Z :=
  <[addr := Z.lor (default 0 (discoveredby !! addr)) flag]> discoveredby.

(** [newIPInfo]; [creq] is not nil.  The last loop ranges over a map: it
    is a fold over its entries. *)
Definition newIPInfo (creq : ctrlRequest) (addrs : list string) : gmap string THIPInfo :=
  let discoveredby :=
    foldl (fun discoveredby epnt =>
             match net_SplitHostPort epnt with
             | Some (addr, _) =>
                 if net_ParseIP addr
                 then or_flag discoveredby addr THIPInfoFlagResolvedByProbe
                 else discoveredby
             | None => discoveredby
             end) ∅ (TCPConnect creq) in
  let discoveredby :=
    foldl (fun discoveredby addr =>
             if net_ParseIP addr
             then or_flag discoveredby addr THIPInfoFlagResolvedByTH
             else discoveredby) discoveredby addrs in
  map_fold (fun addr flags ipinfo =>
              let flags :=
                if IsBogon addr then Z.lor flags THIPInfoFlagIsBogon else flags in
              <[addr := {| ASN := measurexlite.int64 (LookupASN addr);
                           Flags := flags |}]> ipinfo)
    ∅ discoveredby.

(** The endpoint of an address and a port. *)
Definition endpoint (addr port : string) : endpointInfo :=
  {| Addr := addr;
     Epnt := net_JoinHostPort addr port;
     TLS := bool_decide (port = "443") |}.

(** [(info.Flags & model.THIPInfoFlagIsBogon) != 0]. *)
Definition flagged_bogon (info : THIPInfo) : bool :=
  negb (Z.land (Flags info) THIPInfoFlagIsBogon =? 0).

(** The two nested loops of [ipInfoToEndpoints], over the entries of
    [ipinfo] in the order [visit] in which the range loop comes to them. *)
Definition endpoints_in_order (ports : list string) (visit : list (string * THIPInfo))
  : list endpointInfo :=
  foldl (fun out entry =>
           if flagged_bogon entry.2 then out
           else foldl (fun out port => out ++ [endpoint entry.1 port]) out ports)
    [] visit.

(** The endpoints of one entry of the map. *)
Definition endpoints_of (ports : list string) (entry : string * THIPInfo)
  : list endpointInfo :=
  if flagged_bogon entry.2 then [] else endpoint entry.1 <$> ports.

(** [ipInfoToEndpoints]; [URL] is not nil, and [visit] is the map [ipinfo]
    as the list of its entries in the order in which the range loop comes
    to them, which Go leaves open. *)
Definition ipInfoToEndpoints (URL : url_URL) (visit : list (string * THIPInfo))
  : list endpointInfo :=
  sort_SliceStable (endpoints_in_order (ports_of URL) visit).

(** The probe resolved [addr]: it is the host of an endpoint of the
    request. *)
Definition resolved_by_probe (creq : ctrlRequest) (addr : string) : bool :=
  existsb (fun epnt =>
             match net_SplitHostPort epnt with
             | Some (host, _) => bool_decide (host = addr)
             | None => false
             end) (TCPConnect creq).

(** The test helper resolved [addr]. *)
Definition resolved_by_th (addrs : list string) (addr : string) : bool :=
  bool_decide (addr ∈ addrs).

End IPInfo.

(** *** Sample values *)

(** A splitting of "host:port" at the last colon, for the samples. *)
Definition sample_SplitHostPort (epnt : string) : option (string * string) :=
  if bool_decide (epnt = "93.184.216.34:80") then Some ("93.184.216.34", "80")
  else if bool_decide (epnt = "10.0.0.1:80") then Some ("10.0.0.1", "80")
  else None.

Definition sample_ParseIP (addr : string) : bool :=
  bool_decide (addr = "93.184.216.34") || bool_decide (addr = "10.0.0.1")
  || bool_decide (addr = "2606:2800:220:1::1").

Definition sample_IsBogon (addr : string) : bool := bool_decide (addr = "10.0.0.1").

Definition sample_LookupASN (addr : string) : Z :=
  if bool_decide (addr = "10.0.0.1") then 0 else 15133.

Definition sample_request : ctrlRequest :=
  {| TCPConnect := ["93.184.216.34:80"; "10.0.0.1:80"; "www.example.org:80"] |}.

Definition sample_addrs : list string :=
  ["93.184.216.34"; "2606:2800:220:1::1"; "not an address"].

Definition http_URL : url_URL := {| Scheme := "http"; Port := EmptyString |}.

Definition ftp_URL : url_URL := {| Scheme := "ftp"; Port := EmptyString |}.

(** The map of [newIPInfo] for the sample request, with the flags 1, 2
    and 4. *)
Definition sample_ipinfo : gmap string THIPInfo :=
  newIPInfo sample_SplitHostPort sample_ParseIP sample_IsBogon sample_LookupASN
    1 2 4 sample_request sample_addrs.

(** Its entries, in some order. *)
Definition sample_visit : list (string * THIPInfo) :=
  [ ("10.0.0.1", {| ASN := 0; Flags := 5 |});
    ("2606:2800:220:1::1", {| ASN := 15133; Flags := 2 |});
    ("93.184.216.34", {| ASN := 15133; Flags := 3 |}) ].

End oohelperd.

(** * Properties of utls.go *)
Module utls_spec.
Import netxlite.

Lemma supportedFields_at_allowList name :
  supportedFields_at name = true <-> name ∈ allowList.
Proof.
  unfold supportedFields_at, supportedFields, allowList.
  repeat (rewrite lookup_insert; case_decide; [subst; simpl; set_solver |]).
  rewrite lookup_empty. simpl. split; [discriminate |].
  intros Hin.
  repeat (apply elem_of_cons in Hin as [-> | Hin]; [done |]).
  by apply elem_of_nil in Hin.
Qed.

Lemma supportedFields_at_false name :
  supportedFields_at name = false <-> name ∉ allowList.
Proof.
  rewrite <- supportedFields_at_allowList.
  destruct (supportedFields_at name); split; congruence.
Qed.

(** The loop stops at the first offending field. *)
Lemma checkFields_Some fields name :
  checkFields fields = Some name ->
  exists pre value post,
    fields = pre ++ (name, value) :: post
    /\ offending (name, value)
    /\ Forall (fun f => ~ offending f) pre.
Proof.
  induction fields as [| [n v] rest IH]; simpl; [discriminate |].
  destruct (IsZero v) eqn:Hz.
  - intros H. destruct (IH H) as (pre & value & post & -> & Hoff & Hpre).
    exists ((n, v) :: pre), value, post. split; [done |]. split; [done |].
    constructor; [| done]. intros [Hnz _]. simpl in Hnz. congruence.
  - destruct (supportedFields_at n) eqn:Hs.
    + intros H. destruct (IH H) as (pre & value & post & -> & Hoff & Hpre).
      exists ((n, v) :: pre), value, post. split; [done |]. split; [done |].
      constructor; [| done]. intros [_ Hn]. simpl in Hn.
      apply supportedFields_at_allowList in Hs. done.
    + intros [= ->]. exists [], v, rest. split; [done |]. split; [| constructor].
      split; [done |]. simpl. by apply supportedFields_at_false.
Qed.

(** The loop runs to its end exactly when no field is offending. *)
Lemma checkFields_None fields :
  checkFields fields = None <-> Forall (fun f => ~ offending f) fields.
Proof.
  induction fields as [| [n v] rest IH]; simpl.
  - split; [constructor | done].
  - rewrite Forall_cons. unfold offending at 1. simpl.
    destruct (IsZero v) eqn:Hz.
    + rewrite IH. split; [| tauto]. intros H. split; [| done]. intros [? _]. congruence.
    + destruct (supportedFields_at n) eqn:Hs.
      * apply supportedFields_at_allowList in Hs.
        rewrite IH. split; [| tauto]. intros H. split; [| done]. tauto.
      * apply supportedFields_at_false in Hs. split; [discriminate |]. tauto.
Qed.

(** What the loop returns depends only on the fields that are not
    supported, in their order: where the five supported fields stand among
    the others is immaterial. *)
Lemma checkFields_unsupported_only fields :
  checkFields fields
  = checkFields (filter (fun f => supportedFields_at f.1 = false) fields).
Proof.
  induction fields as [| [n v] rest IH]; [done |].
  rewrite filter_cons. simpl. destruct (supportedFields_at n) eqn:Hs.
  - rewrite decide_False by congruence. rewrite <- IH. by destruct (IsZero v).
  - rewrite decide_True by done. simpl. rewrite Hs, <- IH. done.
Qed.

(** C1. [NewUTLSConn] returns the incompatible-config error, which wraps
    [errUTLSIncompatibleStdlibConfig] and whose message names a field that
    is set and not in the allow-list, if and only if the configuration has
    such a field; when it has none, that is when every field that is set
    is in the allow-list, construction succeeds and the engine
    configuration holds the values of the five allow-listed fields of the
    caller's configuration, the session being built from it. *)
Theorem NewUTLSConn_checks_every_field (conn : net_Conn) (config : tls_Config) :
  (forall cid : option ClientHelloID,
     (exists f, f ∈ reflect_fields config /\ offending f)
     <-> exists name value,
           NewUTLSConn conn (Some config) cid
             = Return (None, Some (incompatibleFieldError name))
           /\ (name, value) ∈ reflect_fields config
           /\ offending (name, value)
           /\ errors_Is (incompatibleFieldError name) errUTLSIncompatibleStdlibConfig
              = true
           /\ Error (incompatibleFieldError name)
              = "utls: incompatible stdlib config: field " +:+ name +:+ " is nonzero")
  /\ ((forall f, f ∈ reflect_fields config -> IsZero f.2 = false -> f.1 ∈ allowList)
      -> forall cid : ClientHelloID,
         NewUTLSConn conn (Some config) (Some cid)
         = Return (Some {| UConn := {| uc_conn := conn;
                                       uc_config := translated config;
                                       uc_clientHelloID := cid |};
                           testableHandshake := None;
                           nc := conn |}, None)).
Proof.
  split.
  - intros cid. split.
    + intros (f & Hin & Hoff).
      destruct (checkFields (reflect_fields config)) as [name |] eqn:Hc.
      * destruct (checkFields_Some _ _ Hc) as (pre & value & post & Heq & Hoff' & _).
        exists name, value. unfold NewUTLSConn. rewrite Hc.
        split; [done |]. split; [rewrite Heq; apply elem_of_app; right; by left |].
        split; [done |]. split; [by vm_compute | done].
      * apply checkFields_None in Hc. rewrite Forall_forall in Hc.
        exfalso. by apply (Hc f).
    + intros (name & value & _ & Hin & Hoff & _). by exists (name, value).
  - intros Hall cid. unfold NewUTLSConn.
    assert (checkFields (reflect_fields config) = None) as ->; [| done].
    apply checkFields_None, Forall_forall. intros f Hin [Hnz Hno].
    apply Hno. by apply Hall.
Qed.

Lemma NewUTLSConn_checks_every_field_witness :
  (exists name,
     NewUTLSConn 1%positive (Some config_with_callback) (Some firefox_55)
     = Return (None, Some (incompatibleFieldError name)))
  /\ NewUTLSConn 1%positive (Some config_supported_only) (Some firefox_55)
     = Return (Some {| UConn := {| uc_conn := 1%positive;
                                   uc_config := translated config_supported_only;
                                   uc_clientHelloID := firefox_55 |};
                       testableHandshake := None;
                       nc := 1%positive |}, None).
Proof.
  split.
  - destruct (NewUTLSConn_checks_every_field 1%positive config_with_callback)
      as [Hiff _].
    destruct (Hiff (Some firefox_55)) as [Hfail _].
    destruct Hfail as (name & value & Heq & _).
    + exists ("GetClientCertificate", VNilable false). split.
      * unfold reflect_fields. simpl.
        repeat (apply elem_of_cons; first [left; reflexivity | right]).
      * split; [reflexivity |]. simpl. intros Hin. revert Hin.
        apply (bool_decide_unpack _). vm_compute. exact I.
    + exists name. exact Heq.
  - destruct (NewUTLSConn_checks_every_field 1%positive config_supported_only)
      as [_ Hok].
    apply Hok. intros f Hin Hnz. unfold reflect_fields in Hin. simpl in Hin.
    repeat (apply elem_of_cons in Hin as [-> | Hin];
            [first [discriminate Hnz
                   | apply (bool_decide_unpack _); vm_compute; exact I] |]).
    by apply elem_of_nil in Hin.
Defined.

(** The error names the first field that is set and not supported. *)
Example NewUTLSConn_names_the_callback :
  NewUTLSConn 1%positive (Some config_with_callback) (Some firefox_55)
  = Return (None, Some (incompatibleFieldError "GetClientCertificate"))
  /\ Error (incompatibleFieldError "GetClientCertificate")
     = "utls: incompatible stdlib config: field GetClientCertificate is nonzero".
Proof. split; reflexivity. Qed.

(** ** [HandshakeContext] *)

Lemma inv_init fn ctx : inv fn ctx (HandshakeContext_init ctx).
Proof.
  unfold inv, HandshakeContext_init, waiting_or_cancelled. simpl.
  split; [tauto |]. split; [tauto |]. split; [done |]. by left.
Qed.

Lemma inv_step fn ctx s s' : inv fn ctx s -> step fn ctx s s' -> inv fn ctx s'.
Proof.
  unfold inv, waiting_or_cancelled, delivered.
  intros (Hd & Hf & Hw) Hstep.
  destruct Hstep; simpl in *; subst; simpl in *;
    (split; [first [exact Hd | intros; congruence] |]);
    (split; [first [exact Hf | intros; congruence] |]).
  - naive_solver.
  - naive_solver.
  - destruct Hw as (-> & -> & Hm). exists err. naive_solver.
  - naive_solver.
  - naive_solver.
  - destruct Hw as (-> & -> & Hm).
    exists (Some ErrUTLSHandshakePanic). naive_solver.
  - destruct w, p; naive_solver.
  - destruct w, p; naive_solver.
  - destruct w, p; naive_solver.
Qed.

Lemma inv_reachable fn ctx s : reachable fn ctx s -> inv fn ctx s.
Proof.
  unfold reachable. revert s.
  apply (rtc_ind_r (fun s => inv fn ctx s)).
  - apply inv_init.
  - intros y z _ Hstep IH. by eapply inv_step.
Qed.

Lemma step_steps_left fn ctx s s' :
  step fn ctx s s' -> steps_left s = S (steps_left s').
Proof.
  destruct 1; unfold steps_left; simpl;
    repeat match goal with
           | |- context [if ?b then _ else _] => destruct b
           | |- context [match ?m with AtSelect => _ | Returned _ => _ end] => destruct m
           | |- context [match ?w with PCall => _ | _ => _ end] => destruct w
           end; lia.
Qed.

Lemma reachable_step fn ctx s s' :
  reachable fn ctx s -> step fn ctx s s' -> reachable fn ctx s'.
Proof. unfold reachable. intros H Hs. by eapply rtc_r. Qed.

(** The goroutine never ends while panicking. *)
Lemma reachable_not_crashed fn ctx s : reachable fn ctx s -> ~ process_crashed s.
Proof.
  intros H [Hw Hp]. apply inv_reachable in H as (_ & _ & H).
  rewrite Hw, Hp in H. exact H.
Qed.

(** What a call can return: the context's error, once the context is done,
    or the value that the goroutine delivered. *)
Lemma reachable_returned fn ctx s err :
  reachable fn ctx s -> main s = Returned err ->
  (done s = true /\ err = Some (ctx_cause ctx)) \/ delivered fn err.
Proof.
  intros H Hm. apply inv_reachable in H as (_ & _ & H).
  unfold waiting_or_cancelled in H. rewrite Hm in H.
  destruct (worker s), (panicking s); naive_solver.
Qed.

(** With a panicking handshake function and a context that is not done,
    the caller receives [ErrUTLSHandshakePanic] from every state. *)
Lemma panic_reaches_caller ctx s :
  never_done ctx -> reachable Panics ctx s ->
  exists s', rtc (step Panics ctx) s s'
             /\ main s' = Returned (Some ErrUTLSHandshakePanic).
Proof.
  intros [Hf Hl] H. apply inv_reachable in H as (Hd & _ & H).
  specialize (Hd Hf Hl). destruct s as [ch w p d m]. simpl in *. subst d.
  unfold waiting_or_cancelled, delivered in H.
  assert (forall ch' w', step Panics ctx
            (HS (Some ErrUTLSHandshakePanic :: ch') w' false false AtSelect)
            (HS ch' w' false false (Returned (Some ErrUTLSHandshakePanic)))) as Hrecv
    by (intros; constructor).
  assert (step Panics ctx (HS [] PSendPanic false false AtSelect)
            (HS [Some ErrUTLSHandshakePanic] PDone false false AtSelect)) as Hsend
    by (apply (step_send_panic Panics ctx []); unfold errch_cap; simpl; lia).
  set (final w' := HS [] w' false false (Returned (Some ErrUTLSHandshakePanic))).
  destruct w, p; try done.
  - destruct H as (-> & [-> | [? _]]); [| done].
    exists (final PDone). split; [| reflexivity].
    eapply rtc_l; [by apply step_call_panics |].
    eapply rtc_l; [apply step_recover_non_nil |].
    eapply rtc_l; [exact Hsend |]. apply rtc_once, Hrecv.
  - by destruct H.
  - destruct H as (_ & -> & [-> | [? _]]); [| done].
    exists (final PDone). split; [| reflexivity].
    eapply rtc_l; [apply step_recover_non_nil |].
    eapply rtc_l; [exact Hsend |]. apply rtc_once, Hrecv.
  - destruct H as (v & -> & [[-> [-> | [? _]]] | [-> ->]]); [| done |].
    + exists (final PDeferred). split; [apply rtc_once, Hrecv | reflexivity].
    + exists (final PDeferred). split; [apply rtc_refl | reflexivity].
  - destruct H as (_ & -> & [-> | [? _]]); [| done].
    exists (final PDone). split; [| reflexivity].
    eapply rtc_l; [exact Hsend |]. apply rtc_once, Hrecv.
  - destruct H as (v & -> & [[-> [-> | [? _]]] | [-> ->]]); [| done |].
    + exists (final PDone). split; [apply rtc_once, Hrecv | reflexivity].
    + exists (final PDone). split; [apply rtc_refl | reflexivity].
Qed.

(** C2, as stated, fails: with a context that is already cancelled, a call
    whose handshake function panics can return the context's error, which
    is not [ErrUTLSHandshakePanic]. *)
Lemma HandshakeContext_panic_not_always_reported :
  handshakefn engine_ok (conn_with Panics) = Panics
  /\ HandshakeContext_may_return engine_ok (conn_with Panics) cancelled_ctx
       (Some context_Canceled)
  /\ ~ returns_only (handshakefn engine_ok (conn_with Panics)) cancelled_ctx
         (Some ErrUTLSHandshakePanic).
Proof.
  assert (reachable Panics cancelled_ctx
            (HS [] PCall false true (Returned (Some context_Canceled)))) as Hr.
  { apply rtc_once. apply (step_select_done Panics cancelled_ctx [] PCall false). }
  split; [reflexivity |]. split.
  - eexists. split; [exact Hr | reflexivity].
  - intros Hall. specialize (Hall _ (Some context_Canceled) Hr eq_refl). discriminate.
Qed.

(** C2, amended.  When the handshake function panics, the panic never
    takes the process down: the goroutine recovers it.  The call returns
    [ErrUTLSHandshakePanic], or, only once the context is done, the
    context's own error.  With a context that is never done every
    execution returns [ErrUTLSHandshakePanic], and from every state of the
    call that return is reached.  [ErrUTLSHandshakePanic] is a value of its
    own, different from the cancellation errors and from any other error. *)
Theorem HandshakeContext_panic_recovered engine_Handshake c ctx :
  handshakefn engine_Handshake c = Panics ->
  (forall s, reachable (handshakefn engine_Handshake c) ctx s -> ~ process_crashed s)
  /\ (forall s err,
        reachable (handshakefn engine_Handshake c) ctx s -> main s = Returned err ->
        err = Some ErrUTLSHandshakePanic
        \/ (done s = true /\ err = Some (ctx_cause ctx)))
  /\ (never_done ctx ->
        returns_only (handshakefn engine_Handshake c) ctx (Some ErrUTLSHandshakePanic)
        /\ forall s, reachable (handshakefn engine_Handshake c) ctx s ->
             exists s', rtc (step (handshakefn engine_Handshake c) ctx) s s'
                        /\ main s' = Returned (Some ErrUTLSHandshakePanic))
  /\ (ErrUTLSHandshakePanic <> context_Canceled
      /\ ErrUTLSHandshakePanic <> context_DeadlineExceeded
      /\ ErrUTLSHandshakePanic <> errUTLSIncompatibleStdlibConfig
      /\ (forall msg, ErrUTLSHandshakePanic <> errors_New msg)
      /\ (forall msg e, ErrUTLSHandshakePanic <> fmt_Errorf_w msg e)).
Proof.
  intros ->. split; [intros s; apply reachable_not_crashed |].
  split; [| split].
  - intros s err Hr Hm.
    destruct (reachable_returned _ _ _ _ Hr Hm) as [H | H]; [by right | by left].
  - intros Hnd. split.
    + intros s err Hr Hm.
      destruct (reachable_returned _ _ _ _ Hr Hm) as [[Hd _] | H]; [| exact H].
      apply inv_reachable in Hr as (Hf & _). destruct Hnd as [H1 H2].
      rewrite (Hf H1 H2) in Hd. discriminate.
    + intros s Hr. by apply panic_reaches_caller.
  - repeat split; intros; discriminate.
Qed.

Lemma HandshakeContext_panic_recovered_witness :
  HandshakeContext_may_return engine_ok (conn_with Panics) background_ctx
    (Some ErrUTLSHandshakePanic)
  /\ returns_only (handshakefn engine_ok (conn_with Panics)) background_ctx
       (Some ErrUTLSHandshakePanic).
Proof.
  destruct (HandshakeContext_panic_recovered engine_ok (conn_with Panics)
              background_ctx eq_refl) as (_ & _ & H & _).
  destruct (H (conj eq_refl eq_refl)) as [Honly Hlive].
  split; [| exact Honly].
  destruct (Hlive (HandshakeContext_init background_ctx) (rtc_refl _ _)) as (s' & Hs' & Hm).
  exists s'. split; [exact Hs' | exact Hm].
Defined.

(** C3, as stated, fails: with a context that is already cancelled, a call
    whose handshake function succeeds at once can return that success
    (nil), when the goroutine has delivered it before the caller reaches
    the [select], which then picks either ready case. *)
Lemma HandshakeContext_cancelled_may_return_handshake_result :
  ctx_fired cancelled_ctx = true
  /\ HandshakeContext_may_return engine_ok (conn_with (Returns None)) cancelled_ctx None
  /\ ~ returns_only (handshakefn engine_ok (conn_with (Returns None))) cancelled_ctx
         (Some (ctx_cause cancelled_ctx)).
Proof.
  assert (reachable (Returns None) cancelled_ctx
            (HS [] PDeferred false true (Returned None))) as Hr.
  { unfold reachable, HandshakeContext_init. simpl.
    eapply rtc_l; [by apply step_call_returns |].
    eapply rtc_l;
      [apply (step_send_result _ _ []); unfold errch_cap; simpl; lia |].
    apply rtc_once. apply (step_select_errch _ _ []). }
  split; [reflexivity |]. split.
  - eexists. split; [exact Hr | reflexivity].
  - intros Hall. specialize (Hall _ None Hr eq_refl). discriminate.
Qed.

(** C3, amended.  With a context that is already cancelled, whatever the
    handshake function does, even if it never returns: the call can
    return the context's error as its first step, and the caller is never
    kept waiting, as that return is open in every state in which it is
    still at the [select]; when no handshake result is in [errch] at the
    moment the caller leaves the [select], what it returns is the
    context's error; and a call only ever returns the context's error or
    the result that the handshake goroutine delivered. *)
Theorem HandshakeContext_cancelled_returns_at_once engine_Handshake c ctx :
  ctx_fired ctx = true ->
  step (handshakefn engine_Handshake c) ctx (HandshakeContext_init ctx)
    (HS [] PCall false true (Returned (Some (ctx_cause ctx))))
  /\ (forall s, reachable (handshakefn engine_Handshake c) ctx s -> main s = AtSelect ->
        exists s', step (handshakefn engine_Handshake c) ctx s s'
                   /\ main s' = Returned (Some (ctx_cause ctx)))
  /\ (forall s s' err,
        reachable (handshakefn engine_Handshake c) ctx s ->
        errch s = [] -> main s = AtSelect ->
        step (handshakefn engine_Handshake c) ctx s s' -> main s' = Returned err ->
        err = Some (ctx_cause ctx))
  /\ (forall s err,
        reachable (handshakefn engine_Handshake c) ctx s -> main s = Returned err ->
        err = Some (ctx_cause ctx) \/ delivered (handshakefn engine_Handshake c) err).
Proof.
  intros Hfired. split; [| split; [| split]].
  - unfold HandshakeContext_init. rewrite Hfired. apply step_select_done.
  - intros [ch w p d m] Hr Hm. simpl in Hm. subst m.
    apply inv_reachable in Hr as (_ & Hd & _). simpl in Hd. rewrite (Hd Hfired).
    eexists. split; [apply step_select_done | reflexivity].
  - intros s s' err Hr Hch Hm Hstep Hm'.
    destruct Hstep; simpl in *; subst; try discriminate. by injection Hm' as <-.
  - intros s err Hr Hm.
    destruct (reachable_returned _ _ _ _ Hr Hm) as [[_ H] | H]; [by left | by right].
Qed.

Lemma HandshakeContext_cancelled_returns_at_once_witness :
  HandshakeContext_may_return engine_ok (conn_with NeverReturns) cancelled_ctx
    (Some context_Canceled).
Proof.
  destruct (HandshakeContext_cancelled_returns_at_once engine_ok
              (conn_with NeverReturns) cancelled_ctx eq_refl) as (Hstep & _).
  eexists. split; [apply rtc_once; exact Hstep | reflexivity].
Defined.

(** ** More on [NewUTLSConn] *)

(** The five fields read by name never stop the loop. *)
Lemma checkFields_reflect_fields config :
  checkFields (reflect_fields config) = checkFields (otherFields config).
Proof.
  unfold reflect_fields. simpl.
  repeat match goal with
         | |- context [if ?b then _ else _] =>
             lazymatch b with
             | supportedFields_at _ => change b with true; cbv iota
             | _ => destruct b
             end
         end; reflexivity.
Qed.

(** X1. When [NewUTLSConn] returns, it returns a connection and a nil
    error, or no connection and an error, never both and never neither;
    the error wraps [errUTLSIncompatibleStdlibConfig] and is the one of the
    first field, in declaration order, that is set and not supported: no
    field before it is offending. *)
Theorem NewUTLSConn_conn_or_first_offending_field (conn : net_Conn)
    (config : tls_Config) (cid : option ClientHelloID) (c : option UTLSConn)
    (e : option error) :
  NewUTLSConn conn (Some config) cid = Return (c, e) ->
  (c = None <-> e <> None)
  /\ (forall err, e = Some err ->
        errors_Is err errUTLSIncompatibleStdlibConfig = true
        /\ exists pre name value post,
             err = incompatibleFieldError name
             /\ reflect_fields config = pre ++ (name, value) :: post
             /\ offending (name, value)
             /\ Forall (fun f => ~ offending f) pre).
Proof.
  unfold NewUTLSConn.
  destruct (checkFields (reflect_fields config)) as [name |] eqn:Hc.
  - intros [= <- <-]. split; [split; [discriminate | done] |].
    intros err [= <-]. split; [reflexivity |].
    destruct (checkFields_Some _ _ Hc) as (pre & value & post & Heq & Hoff & Hpre).
    by exists pre, name, value, post.
  - destruct cid as [id |]; [| discriminate].
    intros [= <- <-]. split; [split; [discriminate | done] |]. discriminate.
Qed.

Lemma NewUTLSConn_conn_or_first_offending_field_witness :
  errors_Is (incompatibleFieldError "GetClientCertificate")
    errUTLSIncompatibleStdlibConfig = true.
Proof.
  destruct (NewUTLSConn_conn_or_first_offending_field 1%positive config_with_callback
              (Some firefox_55) None
              (Some (incompatibleFieldError "GetClientCertificate")) eq_refl)
    as [_ H].
  destruct (H _ eq_refl) as [His _]. exact His.
Defined.

(** X2. The values of the five supported fields never cause a failure and
    never hide one: two configurations with the same other fields fail
    with the same error, or both do not fail. *)
Theorem NewUTLSConn_supported_fields_never_matter (conn : net_Conn)
    (config1 config2 : tls_Config) (cid : option ClientHelloID) (e : error) :
  otherFields config1 = otherFields config2 ->
  NewUTLSConn conn (Some config1) cid = Return (None, Some e)
  <-> NewUTLSConn conn (Some config2) cid = Return (None, Some e).
Proof.
  intros Hother. unfold NewUTLSConn.
  rewrite !checkFields_reflect_fields, Hother.
  destruct (checkFields (otherFields config2)); [done |].
  destruct cid; split; discriminate.
Qed.

Lemma NewUTLSConn_supported_fields_never_matter_witness :
  NewUTLSConn 1%positive
    (Some {| RootCAs := None; NextProtos := None; ServerName := EmptyString;
             InsecureSkipVerify := false; DynamicRecordSizingDisabled := false;
             otherFields := otherFields config_with_callback |})
    (Some firefox_55)
  = Return (None, Some (incompatibleFieldError "GetClientCertificate")).
Proof.
  apply (NewUTLSConn_supported_fields_never_matter 1%positive config_with_callback
           _ (Some firefox_55) _ eq_refl).
  reflexivity.
Defined.

(** X3. With a nil configuration [NewUTLSConn] panics.  With a nil
    [ClientHelloID] it still returns the error of an incompatible
    configuration, as the fields are checked first, and panics when the
    configuration is compatible. *)
Theorem NewUTLSConn_nil_pointers (conn : net_Conn) :
  (forall cid, NewUTLSConn conn None cid = Panic)
  /\ (forall config,
        (forall f, f ∈ reflect_fields config -> ~ offending f) ->
        NewUTLSConn conn (Some config) None = Panic)
  /\ (forall config f,
        f ∈ reflect_fields config -> offending f ->
        exists name,
          NewUTLSConn conn (Some config) None
          = Return (None, Some (incompatibleFieldError name))).
Proof.
  split; [done |]. split.
  - intros config Hall. unfold NewUTLSConn.
    assert (checkFields (reflect_fields config) = None) as ->; [| done].
    by apply checkFields_None, Forall_forall.
  - intros config f Hin Hoff. unfold NewUTLSConn.
    destruct (checkFields (reflect_fields config)) as [name |] eqn:Hc.
    + by exists name.
    + apply checkFields_None in Hc. rewrite Forall_forall in Hc.
      exfalso. by apply (Hc f).
Qed.

Lemma NewUTLSConn_nil_pointers_witness :
  exists name,
    NewUTLSConn 1%positive (Some config_with_callback) None
    = Return (None, Some (incompatibleFieldError name)).
Proof.
  destruct (NewUTLSConn_nil_pointers 1%positive) as (_ & _ & H).
  apply (H config_with_callback ("GetClientCertificate", VNilable false)).
  - unfold reflect_fields. simpl.
    repeat (apply elem_of_cons; first [left; reflexivity | right]).
  - split; [reflexivity |]. simpl. intros Hin. revert Hin.
    apply (bool_decide_unpack _). vm_compute. exact I.
Defined.

(** X4. A connection that [NewUTLSConn], or the factory of
    [newUTLSConnFactory], returns has no test override: its handshake is
    the engine's, on the session built from the caller's connection, the
    translated configuration and the client hello; and [NetConn] gives
    back the caller's connection. *)
Theorem NewUTLSConn_then_NetConn_and_handshakefn
    (engine_Handshake : utls_UConn -> call_outcome) (conn : net_Conn)
    (config : tls_Config) (cid : option ClientHelloID) (c : UTLSConn) :
  newUTLSConnFactory cid conn (Some config) = Return (Some c, None) ->
  NewUTLSConn conn (Some config) cid = Return (Some c, None)
  /\ NetConn c = conn
  /\ testableHandshake c = None
  /\ exists id,
       cid = Some id
       /\ UConn c = utls_UClient conn (translated config) id
       /\ handshakefn engine_Handshake c
          = engine_Handshake (utls_UClient conn (translated config) id).
Proof.
  unfold newUTLSConnFactory. intros H. split; [exact H |]. revert H.
  unfold NewUTLSConn.
  destruct (checkFields (reflect_fields config)); [discriminate |].
  destruct cid as [id |]; [| discriminate].
  intros [= <-]. split; [done |]. split; [done |]. by exists id.
Qed.

Lemma NewUTLSConn_then_NetConn_and_handshakefn_witness :
  exists c,
    NewUTLSConn 1%positive (Some config_supported_only) (Some firefox_55)
    = Return (Some c, None)
    /\ NetConn c = 1%positive.
Proof.
  eexists.
  destruct (NewUTLSConn_then_NetConn_and_handshakefn engine_ok 1%positive
              config_supported_only (Some firefox_55) _ eq_refl) as (H & Hnc & _).
  split; [exact H | exact Hnc].
Defined.

(** ** More on [HandshakeContext] *)

Lemma delivered_functional fn v v' : delivered fn v -> delivered fn v' -> v = v'.
Proof. destruct fn; simpl; intros; first [congruence | done]. Qed.

(** Unless the handshake function never returns, the goroutine runs to
    its end from every state of the call, whatever the caller and the
    context did in the meantime, and leaves both as they are. *)
Lemma goroutine_runs_to_its_end fn ctx s :
  fn <> NeverReturns -> reachable fn ctx s ->
  exists ch, rtc (step fn ctx) s (HS ch PDone false (done s) (main s)).
Proof.
  intros Hfn H. apply inv_reachable in H as (_ & _ & H).
  destruct s as [ch w p d m]. simpl in *.
  assert (forall err, step fn ctx (HS [] (PSendResult err) false d m)
                        (HS [err] PDeferred false d m)) as Hsend
    by (intros; apply (step_send_result fn ctx []); unfold errch_cap; simpl; lia).
  assert (step fn ctx (HS [] PSendPanic false d m)
            (HS [Some ErrUTLSHandshakePanic] PDone false d m)) as Hsendp
    by (apply (step_send_panic fn ctx []); unfold errch_cap; simpl; lia).
  destruct w, p; try done.
  - destruct H as [-> _]. destruct fn as [err | |]; [| | done].
    + exists [err].
      eapply rtc_l; [by apply step_call_returns |].
      eapply rtc_l; [apply Hsend |]. apply rtc_once, step_recover_nil.
    + exists [Some ErrUTLSHandshakePanic].
      eapply rtc_l; [by apply step_call_panics |].
      eapply rtc_l; [apply step_recover_non_nil |]. apply rtc_once, Hsendp.
  - destruct H as (_ & -> & _). exists [err].
    eapply rtc_l; [apply Hsend |]. apply rtc_once, step_recover_nil.
  - destruct H as (_ & -> & _). exists [Some ErrUTLSHandshakePanic].
    eapply rtc_l; [apply step_recover_non_nil |]. apply rtc_once, Hsendp.
  - exists ch. apply rtc_once, step_recover_nil.
  - destruct H as (_ & -> & _). exists [Some ErrUTLSHandshakePanic].
    apply rtc_once, Hsendp.
  - exists ch. apply rtc_refl.
Qed.

Lemma reachable_rtc fn ctx s s' :
  reachable fn ctx s -> rtc (step fn ctx) s s' -> reachable fn ctx s'.
Proof. unfold reachable. intros H Hs. by etrans. Qed.

(** With a context that is never done, the value that the goroutine
    delivers reaches the caller from every state of the call. *)
Lemma delivered_reaches_caller fn ctx s v :
  never_done ctx -> delivered fn v -> reachable fn ctx s ->
  exists s', rtc (step fn ctx) s s' /\ main s' = Returned v.
Proof.
  intros Hnd Hv Hr.
  assert (fn <> NeverReturns) as Hfn by (intros ->; exact Hv).
  destruct (goroutine_runs_to_its_end fn ctx s Hfn Hr) as [ch Hrun].
  pose proof (reachable_rtc _ _ _ _ Hr Hrun) as Hr'.
  apply inv_reachable in Hr' as (Hd & _ & Hinv). simpl in *.
  destruct Hnd as [Hf Hl]. specialize (Hd Hf Hl).
  destruct Hinv as (v' & Hv' & Hcase).
  rewrite (delivered_functional _ _ _ Hv' Hv) in Hcase.
  unfold waiting_or_cancelled in Hcase.
  destruct Hcase as [[-> [Hm | [Hdone _]]] | [-> Hm]].
  - exists (HS [] PDone false (done s) (Returned v)). split; [| done].
    eapply rtc_r; [exact Hrun |]. rewrite Hm. apply step_select_errch.
  - congruence.
  - eexists. split; [exact Hrun | exact Hm].
Qed.

(** X5. With a context that is never done, [HandshakeContext] returns what
    the handshake function returns, nil or an error, as it is: no
    execution returns anything else, and from every state of the call the
    return is reached. *)
Theorem HandshakeContext_returns_the_handshake_result
    (engine_Handshake : utls_UConn -> call_outcome) (c : UTLSConn) (ctx : context)
    (err : option error) :
  handshakefn engine_Handshake c = Returns err ->
  never_done ctx ->
  returns_only (handshakefn engine_Handshake c) ctx err
  /\ forall s, reachable (handshakefn engine_Handshake c) ctx s ->
       exists s', rtc (step (handshakefn engine_Handshake c) ctx) s s'
                  /\ main s' = Returned err.
Proof.
  intros -> Hnd. split.
  - intros s err' Hr Hm.
    destruct (reachable_returned _ _ _ _ Hr Hm) as [[Hd _] | H]; [| exact H].
    apply inv_reachable in Hr as (Hf & _). destruct Hnd as [H1 H2].
    rewrite (Hf H1 H2) in Hd. discriminate.
  - intros s Hr. by apply delivered_reaches_caller.
Qed.

Lemma HandshakeContext_returns_the_handshake_result_witness :
  HandshakeContext_may_return engine_ok
    (conn_with (Returns (Some (errors_New "remote error: tls: handshake failure"))))
    background_ctx (Some (errors_New "remote error: tls: handshake failure")).
Proof.
  destruct (HandshakeContext_returns_the_handshake_result engine_ok
              (conn_with (Returns (Some (errors_New "remote error: tls: handshake failure"))))
              background_ctx _ eq_refl (conj eq_refl eq_refl)) as [_ Hlive].
  destruct (Hlive (HandshakeContext_init background_ctx) (rtc_refl _ _))
    as (s' & Hs' & Hm).
  exists s'. split; [exact Hs' | exact Hm].
Defined.

(** X6. When the handshake function never returns, [HandshakeContext]
    returns nothing but the context's error, and only once the context is
    done: with a context that is never done the caller stays at the
    [select] for ever, and with a context that may still be cancelled the
    return of its error is within reach. *)
Theorem HandshakeContext_stuck_handshake
    (engine_Handshake : utls_UConn -> call_outcome) (c : UTLSConn) (ctx : context) :
  handshakefn engine_Handshake c = NeverReturns ->
  (forall s err, reachable (handshakefn engine_Handshake c) ctx s ->
     main s = Returned err -> done s = true /\ err = Some (ctx_cause ctx))
  /\ (never_done ctx ->
      forall s, reachable (handshakefn engine_Handshake c) ctx s -> main s = AtSelect)
  /\ (ctx_live ctx = true ->
      HandshakeContext_may_return engine_Handshake c ctx (Some (ctx_cause ctx))).
Proof.
  intros Hfn. rewrite Hfn.
  assert (forall s err, reachable NeverReturns ctx s -> main s = Returned err ->
            done s = true /\ err = Some (ctx_cause ctx)) as Honly.
  { intros s err Hr Hm.
    destruct (reachable_returned _ _ _ _ Hr Hm) as [H | H]; [exact H | done]. }
  split; [exact Honly |]. split.
  - intros [H1 H2] s Hr. destruct (main s) as [| err] eqn:Hm; [done |].
    destruct (Honly s err Hr Hm) as [Hd _].
    apply inv_reachable in Hr as (Hf & _). rewrite (Hf H1 H2) in Hd. discriminate.
  - intros Hlive. unfold HandshakeContext_may_return. rewrite Hfn.
    exists (HS [] PCall false true (Returned (Some (ctx_cause ctx)))).
    split; [| done]. unfold reachable, HandshakeContext_init.
    destruct (ctx_fired ctx).
    + apply rtc_once, step_select_done.
    + eapply rtc_l; [by apply step_ctx_fires |]. apply rtc_once, step_select_done.
Qed.

Lemma HandshakeContext_stuck_handshake_witness :
  HandshakeContext_may_return engine_ok (conn_with NeverReturns) pending_ctx
    (Some context_DeadlineExceeded).
Proof.
  destruct (HandshakeContext_stuck_handshake engine_ok (conn_with NeverReturns)
              pending_ctx eq_refl) as (_ & _ & H).
  exact (H eq_refl).
Defined.

(** X7. The goroutine is never blocked on [errch]: the channel never holds
    more than one value, and is empty whenever the goroutine is about to
    send.  So, unless the handshake function never returns, the goroutine
    runs to its end from every state of the call, also after the caller
    has left through the context's case, and is not panicking when it
    ends; what the caller returned stays as it is. *)
Theorem HandshakeContext_goroutine_always_ends
    (engine_Handshake : utls_UConn -> call_outcome) (c : UTLSConn) (ctx : context)
    (s : hstate) :
  reachable (handshakefn engine_Handshake c) ctx s ->
  (length (errch s) <= errch_cap)%nat
  /\ (at_send (worker s) -> errch s = [])
  /\ (handshakefn engine_Handshake c <> NeverReturns ->
      exists s', rtc (step (handshakefn engine_Handshake c) ctx) s s'
                 /\ worker s' = PDone /\ panicking s' = false
                 /\ main s' = main s).
Proof.
  intros Hr. pose proof (inv_reachable _ _ _ Hr) as (_ & _ & Hinv).
  split; [| split].
  - unfold errch_cap. destruct (worker s), (panicking s); try done;
      try (destruct Hinv as (v & _ & [[-> _] | [-> _]]); simpl; lia);
      try (destruct Hinv as (_ & -> & _); simpl; lia).
    destruct Hinv as [-> _]. simpl. lia.
  - intros [Hw | [err Hw]]; rewrite Hw in Hinv; destruct (panicking s); try done.
    + by destruct Hinv as (_ & -> & _).
    + by destruct Hinv as (_ & -> & _).
  - intros Hfn. destruct (goroutine_runs_to_its_end _ ctx s Hfn Hr) as [ch Hrun].
    eexists. split; [exact Hrun |]. done.
Qed.

Lemma HandshakeContext_goroutine_always_ends_witness :
  exists s',
    rtc (step (Returns None) cancelled_ctx)
      (HS [] PCall false true (Returned (Some context_Canceled))) s'
    /\ worker s' = PDone /\ main s' = Returned (Some context_Canceled).
Proof.
  assert (reachable (handshakefn engine_ok (conn_with (Returns None))) cancelled_ctx
            (HS [] PCall false true (Returned (Some context_Canceled)))) as Hr.
  { apply rtc_once. apply (step_select_done _ cancelled_ctx [] PCall false). }
  destruct (HandshakeContext_goroutine_always_ends engine_ok (conn_with (Returns None))
              cancelled_ctx _ Hr) as (_ & _ & H).
  destruct H as (s' & Hrun & Hw & _ & Hm); [discriminate |].
  exists s'. split; [exact Hrun |]. split; [exact Hw | exact Hm].
Defined.

Lemma nsteps_steps_left fn ctx n s s' :
  nsteps (step fn ctx) n s s' -> steps_left s = (n + steps_left s')%nat.
Proof.
  induction 1 as [| n x y z Hstep _ IH]; [done |].
  rewrite (step_steps_left _ _ _ _ Hstep), IH. lia.
Qed.

Lemma returned_for_good fn ctx s s' err :
  rtc (step fn ctx) s s' -> main s = Returned err -> main s' = Returned err.
Proof.
  induction 1 as [| x y z Hstep _ IH]; [done |].
  intros Hm. apply IH. destruct Hstep; simpl in *; congruence.
Qed.

(** X8. A call of [HandshakeContext] takes five steps at most, of the
    goroutine, the context and the caller together, so that no execution
    goes on for ever; and once the caller has returned, no later step
    changes what it returned. *)
Theorem HandshakeContext_executions_are_short (fn : call_outcome) (ctx : context)
    (n : nat) (s : hstate) :
  nsteps (step fn ctx) n (HandshakeContext_init ctx) s ->
  (n <= 5)%nat
  /\ forall s' err, main s = Returned err -> rtc (step fn ctx) s s' ->
       main s' = Returned err.
Proof.
  intros Hn. split.
  - apply nsteps_steps_left in Hn. unfold HandshakeContext_init in Hn.
    unfold steps_left at 1 in Hn. simpl in Hn. destruct (ctx_fired ctx); lia.
  - intros s' err Hm Hrun. by eapply returned_for_good.
Qed.

Lemma HandshakeContext_executions_are_short_witness :
  (1 <= 5)%nat
  /\ main (HS [None] PDone false true (Returned (Some context_Canceled)))
     = Returned (Some context_Canceled).
Proof.
  assert (nsteps (step (Returns None) cancelled_ctx) 1
            (HandshakeContext_init cancelled_ctx)
            (HS [] PCall false true (Returned (Some context_Canceled)))) as Hn.
  { apply nsteps_once. apply (step_select_done _ cancelled_ctx [] PCall false). }
  destruct (HandshakeContext_executions_are_short _ _ _ _ Hn) as [Hle Hstable].
  split; [exact Hle |]. apply (Hstable _ _ eq_refl).
  eapply rtc_l; [by apply step_call_returns |].
  eapply rtc_l; [apply (step_send_result _ _ []); unfold errch_cap; simpl; lia |].
  apply rtc_once, step_recover_nil.
Defined.

End utls_spec.

(** * Properties of the conn tracing *)
Module conn_spec.
Import measurexlite.

(** ** Closing *)

Section Properties.

Context {World : Type}.
Variable NewFailure : option error -> option string.
Variable TimeSince : World -> Z -> Z.

(** C10. With a nil connection [MaybeClose] and [MaybeCloseUDPLikeConn]
    return nil and leave the world as it is: no [Close] is called.  With
    a connection they return what its [Close] returns. *)
Theorem MaybeClose_nil_or_Close (w : World) :
  MaybeClose None w = (None, w)
  /\ MaybeCloseUDPLikeConn None w = (None, w)
  /\ (forall conn : net_Conn World, MaybeClose (Some conn) w = conn_Close conn w)
  /\ (forall conn : UDPLikeConn World,
        MaybeCloseUDPLikeConn (Some conn) w = udp_Close conn w).
Proof. repeat split. Qed.

(** ** The event channel *)

Lemma select_send_default_full tx ev :
  (networkEvent_cap tx <= length (networkEvent tx))%nat ->
  select_send_default tx ev = tx.
Proof. intros H. unfold select_send_default. rewrite decide_False by lia. done. Qed.

Lemma select_send_default_room tx ev :
  (length (networkEvent tx) < networkEvent_cap tx)%nat ->
  select_send_default tx ev = set_networkEvent tx (networkEvent tx ++ [ev]).
Proof. intros H. unfold select_send_default. by rewrite decide_True. Qed.

Lemma select_send_default_frame tx ev :
  bytesReceivedMap (select_send_default tx ev) = bytesReceivedMap tx
  /\ networkEvent_cap (select_send_default tx ev) = networkEvent_cap tx
  /\ tags (select_send_default tx ev) = tags tx.
Proof. unfold select_send_default. by case_decide. Qed.

Lemma NetworkEvents_loop_spec ch out :
  NetworkEvents_loop ch out = (out ++ ch, []).
Proof.
  revert out. induction ch as [| ev ch IH]; intros out; simpl.
  - by rewrite app_nil_r.
  - rewrite IH. by rewrite <- app_assoc.
Qed.

Lemma send_all_networkEvent evs : forall tx,
  (length (networkEvent tx) + length evs <= networkEvent_cap tx)%nat ->
  networkEvent (foldl select_send_default tx evs) = networkEvent tx ++ evs.
Proof.
  induction evs as [| ev evs IH]; intros tx Hlen; simpl in *.
  - by rewrite app_nil_r.
  - rewrite select_send_default_room by lia. rewrite IH.
    + simpl. by rewrite <- app_assoc.
    + simpl. rewrite length_app. simpl. lia.
Qed.

(** C4. When the channel holds as many events as its capacity, the
    [select] with [default] leaves the trace as it is, and each of the four
    instrumented operations completes: it returns the count and the error
    of the underlying call, nothing else, and the queued events are the
    same as before. *)
Theorem full_queue_drops_the_event (s : state World) (b : list byte) :
  length (networkEvent (st_tx s)) = networkEvent_cap (st_tx s) ->
  (forall ev, select_send_default (st_tx s) ev = st_tx s)
  /\ (forall c remote, conn_RemoteAddr (Conn c) (st_world s) = Some remote ->
        exists s', Read NewFailure TimeSince c b s
                   = Return ((conn_Read (Conn c) b (st_world s)).1, s')
                   /\ networkEvent (st_tx s') = networkEvent (st_tx s))
  /\ (forall c remote, conn_RemoteAddr (Conn c) (st_world s) = Some remote ->
        exists s', Write NewFailure TimeSince c b s
                   = Return ((conn_Write (Conn c) b (st_world s)).1, s')
                   /\ networkEvent (st_tx s') = networkEvent (st_tx s))
  /\ (forall c,
        (ReadFrom NewFailure TimeSince c b s).1
        = (udp_ReadFrom (UDPLikeConn_ c) b (st_world s)).1
        /\ networkEvent (st_tx (ReadFrom NewFailure TimeSince c b s).2)
           = networkEvent (st_tx s))
  /\ (forall c a,
        exists s', WriteTo NewFailure TimeSince c b (Some a) s
                   = Return ((udp_WriteTo (UDPLikeConn_ c) b (Some a) (st_world s)).1, s')
                   /\ networkEvent (st_tx s') = networkEvent (st_tx s)).
Proof.
  intros Hfull.
  assert (forall ev, select_send_default (st_tx s) ev = st_tx s) as Hdrop
    by (intros ev; apply select_send_default_full; lia).
  split; [exact Hdrop |]. repeat split.
  - intros c remote Hra. unfold Read. rewrite Hra.
    destruct (conn_Read (Conn c) b (st_world s)) as [[count err] w]. simpl.
    destruct (NewArchivalNetworkEvent _ _ _ _ _ _ _ _ _ _ _) as [ev h].
    rewrite Hdrop. eexists. split; [reflexivity | reflexivity].
  - intros c remote Hra. unfold Write. rewrite Hra.
    destruct (conn_Write (Conn c) b (st_world s)) as [[count err] w]. simpl.
    destruct (NewArchivalNetworkEvent _ _ _ _ _ _ _ _ _ _ _) as [ev h].
    rewrite Hdrop. eexists. split; reflexivity.
  - unfold ReadFrom.
    destruct (udp_ReadFrom (UDPLikeConn_ c) b (st_world s)) as [[[count addr] err] w].
    destruct (NewArchivalNetworkEvent _ _ _ _ _ _ _ _ _ _ _) as [ev h]. reflexivity.
  - unfold ReadFrom.
    destruct (udp_ReadFrom (UDPLikeConn_ c) b (st_world s)) as [[[count addr] err] w].
    destruct (NewArchivalNetworkEvent _ _ _ _ _ _ _ _ _ _ _) as [ev h].
    rewrite Hdrop. simpl. by destruct addr.
  - intros c a. unfold WriteTo.
    destruct (udp_WriteTo (UDPLikeConn_ c) b (Some a) (st_world s)) as [[count err] w].
    destruct (NewArchivalNetworkEvent _ _ _ _ _ _ _ _ _ _ _) as [ev h].
    rewrite Hdrop. eexists. split; reflexivity.
Qed.

(** ** The results of the wrappers *)

(** Without a remote address [Read] and [Write] panic before the
    underlying call, and so does [WriteTo] with a nil address. *)
Lemma wrappers_panic_on_nil_address (c : connTrace World) (u : udpLikeConnTrace World)
    (b : list byte) (s : state World) :
  (conn_RemoteAddr (Conn c) (st_world s) = None ->
     Read NewFailure TimeSince c b s = Panic
     /\ Write NewFailure TimeSince c b s = Panic)
  /\ WriteTo NewFailure TimeSince u b None s = Panic.
Proof.
  split; [| reflexivity]. intros H. unfold Read, Write. by rewrite H.
Qed.

(** C7. Whatever the state of the trace, [Read], [Write], [ReadFrom] and
    [WriteTo] return the count, the address and the error of the call of
    the underlying connection, as they are, and leave the world as that
    call left it. *)
Theorem wrappers_return_the_underlying_result (s : state World) (b : list byte) :
  (forall c remote, conn_RemoteAddr (Conn c) (st_world s) = Some remote ->
     exists s', Read NewFailure TimeSince c b s
                = Return ((conn_Read (Conn c) b (st_world s)).1, s')
                /\ st_world s' = (conn_Read (Conn c) b (st_world s)).2)
  /\ (forall c remote, conn_RemoteAddr (Conn c) (st_world s) = Some remote ->
        exists s', Write NewFailure TimeSince c b s
                   = Return ((conn_Write (Conn c) b (st_world s)).1, s')
                   /\ st_world s' = (conn_Write (Conn c) b (st_world s)).2)
  /\ (forall c,
        (ReadFrom NewFailure TimeSince c b s).1
        = (udp_ReadFrom (UDPLikeConn_ c) b (st_world s)).1
        /\ st_world (ReadFrom NewFailure TimeSince c b s).2
           = (udp_ReadFrom (UDPLikeConn_ c) b (st_world s)).2)
  /\ (forall c a,
        exists s', WriteTo NewFailure TimeSince c b (Some a) s
                   = Return ((udp_WriteTo (UDPLikeConn_ c) b (Some a) (st_world s)).1, s')
                   /\ st_world s' = (udp_WriteTo (UDPLikeConn_ c) b (Some a) (st_world s)).2).
Proof.
  split; [| split; [| split]].
  - intros c remote Hra. unfold Read. rewrite Hra.
    destruct (conn_Read (Conn c) b (st_world s)) as [[count err] w]. simpl.
    destruct (NewArchivalNetworkEvent _ _ _ _ _ _ _ _ _ _ _) as [ev h].
    eexists. split; reflexivity.
  - intros c remote Hra. unfold Write. rewrite Hra.
    destruct (conn_Write (Conn c) b (st_world s)) as [[count err] w]. simpl.
    destruct (NewArchivalNetworkEvent _ _ _ _ _ _ _ _ _ _ _) as [ev h].
    eexists. split; reflexivity.
  - intros c. unfold ReadFrom.
    destruct (udp_ReadFrom (UDPLikeConn_ c) b (st_world s)) as [[[count addr] err] w].
    destruct (NewArchivalNetworkEvent _ _ _ _ _ _ _ _ _ _ _) as [ev h].
    split; reflexivity.
  - intros c a. unfold WriteTo.
    destruct (udp_WriteTo (UDPLikeConn_ c) b (Some a) (st_world s)) as [[count err] w].
    destruct (NewArchivalNetworkEvent _ _ _ _ _ _ _ _ _ _ _) as [ev h].
    eexists. split; reflexivity.
Qed.

(** C8. When the underlying [ReadFrom] reports a nil sender, the
    bytes-received map after the call is the map before the call, and the
    event that the call offers to the channel, which is queued when there
    is room, has the empty string as its address. *)
Theorem ReadFrom_nil_sender_skips_accounting (c : udpLikeConnTrace World)
    (b : list byte) (s : state World) count err w :
  udp_ReadFrom (UDPLikeConn_ c) b (st_world s) = ((count, None, err), w) ->
  bytesReceivedMap (st_tx (ReadFrom NewFailure TimeSince c b s).2)
  = bytesReceivedMap (st_tx s)
  /\ (exists ev,
        Address ev = EmptyString /\ Proto ev = "udp" /\ Operation ev = ReadFromOperation
        /\ st_tx (ReadFrom NewFailure TimeSince c b s).2
           = select_send_default (st_tx s) ev
        /\ ((length (networkEvent (st_tx s)) < networkEvent_cap (st_tx s))%nat ->
            networkEvent (st_tx (ReadFrom NewFailure TimeSince c b s).2)
            = networkEvent (st_tx s) ++ [ev])).
Proof.
  intros Hread. unfold ReadFrom. rewrite Hread. simpl.
  unfold NewArchivalNetworkEvent.
  destruct (copyAndNormalizeTags (st_heap s) (tags (st_tx s))) as [tags' h]. simpl.
  split; [apply select_send_default_frame |].
  eexists. split; [| split; [| split; [| split]]]; [| | | reflexivity |]; try reflexivity.
  intros Hroom. by rewrite select_send_default_room.
Qed.

End Properties.

(** ** Draining the channel *)

(** C6. [NetworkEvents] returns the queued events, oldest first, and
    leaves the channel empty, so that a second call right after returns
    nothing; the events that were sent to an empty channel with room for
    them come back in the order in which they were sent. *)
Theorem NetworkEvents_drains_in_order (tx : Trace) :
  (NetworkEvents tx).1 = networkEvent tx
  /\ networkEvent (NetworkEvents tx).2 = []
  /\ (NetworkEvents (NetworkEvents tx).2).1 = []
  /\ (forall evs,
        networkEvent tx = [] -> (length evs <= networkEvent_cap tx)%nat ->
        (NetworkEvents (foldl select_send_default tx evs)).1 = evs).
Proof.
  unfold NetworkEvents. rewrite !NetworkEvents_loop_spec. simpl.
  split; [done |]. split; [done |]. split; [done |].
  intros evs Hempty Hlen. rewrite NetworkEvents_loop_spec. simpl.
  rewrite send_all_networkEvent by (rewrite Hempty; simpl; lia).
  by rewrite Hempty.
Qed.

Lemma NetworkEvents_drains_in_order_witness :
  (NetworkEvents (foldl select_send_default (new_trace 2)
                    [sample_event; other_event])).1
  = [sample_event; other_event].
Proof.
  destruct (NetworkEvents_drains_in_order (new_trace 2)) as (_ & _ & _ & H).
  apply H; [reflexivity | simpl; lia].
Defined.

(** [FirstNetworkEventOrNil] empties the channel too and returns its oldest
    event. *)
Lemma FirstNetworkEventOrNil_spec (tx : Trace) :
  (FirstNetworkEventOrNil tx).1 = head (networkEvent tx)
  /\ networkEvent (FirstNetworkEventOrNil tx).2 = [].
Proof.
  unfold FirstNetworkEventOrNil, NetworkEvents.
  rewrite NetworkEvents_loop_spec. simpl.
  case_decide; [| done]. destruct (networkEvent tx); [done | simpl in *; lia].
Qed.

Lemma full_queue_drops_the_event_witness :
  exists s',
    Read failure_of_message clock_TimeSince (MaybeWrapNetConn sample_conn) buffer
      (state_of full_trace) = Return ((4, None), s')
    /\ networkEvent (st_tx s') = [sample_event; other_event].
Proof.
  destruct (full_queue_drops_the_event failure_of_message clock_TimeSince
              (state_of full_trace) buffer eq_refl) as (_ & Hread & _).
  destruct (Hread (MaybeWrapNetConn sample_conn) peer eq_refl) as (s' & Heq & Hq).
  exists s'. split; [exact Heq | exact Hq].
Defined.

Lemma wrappers_return_the_underlying_result_witness :
  exists s',
    Write failure_of_message clock_TimeSince (MaybeWrapNetConn sample_conn) buffer
      (state_of (new_trace 2)) = Return ((0, Some (errors_New "broken pipe")), s')
    /\ st_world s' = 1000000.
Proof.
  destruct (wrappers_return_the_underlying_result failure_of_message clock_TimeSince
              (state_of (new_trace 2)) buffer) as (_ & Hwrite & _).
  destruct (Hwrite (MaybeWrapNetConn sample_conn) peer eq_refl) as (s' & Heq & Hw).
  exists s'. split; [exact Heq | exact Hw].
Defined.

Lemma ReadFrom_nil_sender_skips_accounting_witness :
  bytesReceivedMap
    (st_tx (ReadFrom failure_of_message clock_TimeSince
              (MaybeWrapUDPLikeConn sample_udp) buffer (state_of full_trace)).2)
  = <["1.2.3.4:443 tcp" := 10]> ∅.
Proof.
  destruct (ReadFrom_nil_sender_skips_accounting failure_of_message clock_TimeSince
              (MaybeWrapUDPLikeConn sample_udp) buffer (state_of full_trace)
              0 (Some (errors_New "i/o timeout")) 1000000 eq_refl) as [Hmap _].
  exact Hmap.
Defined.

(** ** The bytes-received map *)

Lemma CloneBytesReceivedMap_eq (tx : Trace) :
  CloneBytesReceivedMap tx = bytesReceivedMap tx.
Proof.
  unfold CloneBytesReceivedMap.
  apply (map_fold_weak_ind (fun (out m : gmap string Z) => out = m)); [done |].
  intros i x m r _ ->. done.
Qed.

Lemma int64_small z : - 2 ^ 63 <= z < 2 ^ 63 -> int64 z = z.
Proof. intros H. unfold int64. rewrite Z.mod_small; lia. Qed.

Lemma int64_add_l x y : int64 (int64 x + y) = int64 (x + y).
Proof.
  unfold int64.
  replace ((x + 2 ^ 63) mod 2 ^ 64 - 2 ^ 63 + y + 2 ^ 63)
    with ((x + 2 ^ 63) mod 2 ^ 64 + y) by ring.
  rewrite Zplus_mod_idemp_l. do 2 f_equal. ring.
Qed.

(** What one update does: the key is the address, a space and the
    normalized network; the count is added to the stored total, on 64
    bits; no other key is touched. *)
Lemma updateBytesReceivedMapNetConn_spec tx network address count :
  bytesReceivedMap (updateBytesReceivedMapNetConn tx network address count)
  = <[address +:+ " " +:+ normalizeNetwork network :=
        int64 (default 0 (bytesReceivedMap tx
                            !! (address +:+ " " +:+ normalizeNetwork network))
               + int64 count)]> (bytesReceivedMap tx).
Proof. reflexivity. Qed.

(** C5. The network names "tcp4" and "tcp6" become "tcp", "udp4" and
    "udp6" become "udp"; after recording 100 bytes for "1.2.3.4:443" over
    "tcp4" and 50 bytes over "tcp6", the clone of the map holds under the
    key "1.2.3.4:443 tcp" the previous total plus 150, which is 150 when
    the key was absent, as in a new trace, and every other key is as
    before. *)
Theorem bytes_received_normalized_and_accumulated (tx : Trace) :
  normalizeNetwork "tcp4" = "tcp" /\ normalizeNetwork "tcp6" = "tcp"
  /\ normalizeNetwork "udp4" = "udp" /\ normalizeNetwork "udp6" = "udp"
  /\ CloneBytesReceivedMap
       (updateBytesReceivedMapNetConn
          (updateBytesReceivedMapNetConn tx "tcp4" "1.2.3.4:443" 100)
          "tcp6" "1.2.3.4:443" 50) !! "1.2.3.4:443 tcp"
     = Some (int64 (default 0 (bytesReceivedMap tx !! "1.2.3.4:443 tcp") + 150))
  /\ (bytesReceivedMap tx !! "1.2.3.4:443 tcp" = None ->
      CloneBytesReceivedMap
        (updateBytesReceivedMapNetConn
           (updateBytesReceivedMapNetConn tx "tcp4" "1.2.3.4:443" 100)
           "tcp6" "1.2.3.4:443" 50) !! "1.2.3.4:443 tcp" = Some 150)
  /\ (forall key, key <> "1.2.3.4:443 tcp" ->
      CloneBytesReceivedMap
        (updateBytesReceivedMapNetConn
           (updateBytesReceivedMapNetConn tx "tcp4" "1.2.3.4:443" 100)
           "tcp6" "1.2.3.4:443" 50) !! key = bytesReceivedMap tx !! key).
Proof.
  do 4 (split; [reflexivity |]).
  rewrite CloneBytesReceivedMap_eq, !updateBytesReceivedMapNetConn_spec.
  change ("1.2.3.4:443" +:+ " " +:+ normalizeNetwork "tcp4") with "1.2.3.4:443 tcp".
  change ("1.2.3.4:443" +:+ " " +:+ normalizeNetwork "tcp6") with "1.2.3.4:443 tcp".
  rewrite !lookup_insert_eq. simpl.
  assert (forall a, int64 (int64 (a + int64 100) + int64 50) = int64 (a + 150)) as Hsum.
  { intros a. rewrite (int64_small 100), (int64_small 50) by lia.
    rewrite int64_add_l. f_equal. ring. }
  split; [by rewrite Hsum |]. split.
  - intros ->. simpl. rewrite Hsum. by apply f_equal.
  - intros key Hne. by rewrite !lookup_insert_ne.
Qed.

Lemma bytes_received_normalized_and_accumulated_witness :
  CloneBytesReceivedMap
    (updateBytesReceivedMapNetConn
       (updateBytesReceivedMapNetConn (new_trace 2) "tcp4" "1.2.3.4:443" 100)
       "tcp6" "1.2.3.4:443" 50) !! "1.2.3.4:443 tcp" = Some 150.
Proof.
  destruct (bytes_received_normalized_and_accumulated (new_trace 2))
    as (_ & _ & _ & _ & _ & H & _).
  apply H. reflexivity.
Defined.

(** ** The tags of an event *)

(** The slice returned by [copyAndNormalizeTags] is not nil; its array is
    none of the arrays of the heap before the call; it holds the elements
    of [tags]; the arrays that existed are left as they were. *)
Lemma copyAndNormalizeTags_spec h tags :
  valid h tags ->
  exists hd h',
    copyAndNormalizeTags h tags = (Some hd, h')
    /\ (arr hd ∉ dom h)
    /\ h' !! (arr hd) = Some (elems h tags)
    /\ off hd = 0%nat /\ len hd = length (elems h tags)
    /\ (forall l, l ∈ dom h -> h' !! l = h !! l).
Proof.
  unfold heap, loc in *.
  intros Hvalid. unfold copyAndNormalizeTags.
  destruct (decide (slice_len tags <= 0)%nat) as [Hle | Hgt].
  - assert (elems h tags = []) as ->.
    { destruct tags as [hd |]; [| done]. simpl in *.
      assert (len hd = 0%nat) as -> by lia. done. }
    cbv beta iota zeta delta [alloc heap loc] in *.
    pose proof (is_fresh (dom h)) as Hl1.
    set (l1 := fresh (dom h)) in *. clearbody l1.
    pose proof (is_fresh (dom (<[l1 := []]> h))) as Hl2.
    set (l2 := fresh (dom (<[l1 := []]> h))) in *. clearbody l2.
    rewrite dom_insert_L in Hl2. simpl.
    eexists _, _. split; [reflexivity |]. simpl.
    split; [intros Hin; apply Hl2, elem_of_union; by right |].
    split; [by rewrite lookup_insert_eq |].
    split; [done |]. split; [done |].
    intros l Hl. rewrite !lookup_insert_ne; [done | by intros <- |].
    intros <-. apply Hl2, elem_of_union. by right.
  - destruct tags as [t |]; [| simpl in Hgt; lia].
    destruct Hvalid as (a & Ha & Hlen & Hcap).
    cbv beta iota zeta delta [alloc heap loc] in *.
    pose proof (is_fresh (dom h)) as Hl1.
    set (l1 := fresh (dom h)) in *. clearbody l1.
    assert (arr t <> l1) as Hne.
    { intros Heq. apply Hl1. rewrite <- Heq. apply elem_of_dom. by eexists. }
    unfold elems, heap, loc in *. rewrite lookup_insert_ne by done. rewrite Ha. simpl.
    destruct (take (len t) (drop (off t) a)) as [| x xs] eqn:Hxs.
    + simpl. eexists _, _. split; [reflexivity |]. simpl.
      split; [done |]. split; [by rewrite lookup_insert_eq |].
      split; [done |]. split; [done |].
      intros l Hl. rewrite lookup_insert_ne; [done |]. by intros <-.
    + simpl.
      cbv beta iota zeta delta [alloc heap loc] in *.
      pose proof (is_fresh (dom (<[l1 := []]> h))) as Hl2.
      set (l2 := fresh (dom (<[l1 := []]> h))) in *. clearbody l2.
      rewrite dom_insert_L in Hl2.
      eexists _, _. split; [reflexivity |]. simpl.
      split; [intros Hin; apply Hl2, elem_of_union; by right |].
      split; [by rewrite lookup_insert_eq |].
      split; [done |]. split; [done |].
      intros l Hl. rewrite !lookup_insert_ne; [done | by intros <- |].
      intros <-. apply Hl2, elem_of_union. by right.
Qed.

Lemma valid_repeated_tag : valid heap_with_repeated_tag repeated_tag.
Proof. exists ["web"; "web"]. split; [reflexivity | simpl; lia]. Qed.

(** C9, as stated, fails on the de-duplication: the tags of the event are
    the tags of the trace one for one, and a tag that the trace holds twice
    is twice in the event. *)
Lemma event_tags_keep_duplicates :
  valid heap_with_repeated_tag repeated_tag
  /\ elems
       (NewArchivalNetworkEvent failure_of_message heap_with_repeated_tag
          1 0 "read" "tcp" "1.2.3.4:443" 10 None 5 repeated_tag).2
       (Tags (NewArchivalNetworkEvent failure_of_message heap_with_repeated_tag
                1 0 "read" "tcp" "1.2.3.4:443" 10 None 5 repeated_tag).1)
     = ["web"; "web"]
  /\ ~ NoDup (elems
                (NewArchivalNetworkEvent failure_of_message heap_with_repeated_tag
                   1 0 "read" "tcp" "1.2.3.4:443" 10 None 5 repeated_tag).2
                (Tags (NewArchivalNetworkEvent failure_of_message
                         heap_with_repeated_tag
                         1 0 "read" "tcp" "1.2.3.4:443" 10 None 5 repeated_tag).1)).
Proof.
  split; [exact valid_repeated_tag |].
  assert (elems
       (NewArchivalNetworkEvent failure_of_message heap_with_repeated_tag
          1 0 "read" "tcp" "1.2.3.4:443" 10 None 5 repeated_tag).2
       (Tags (NewArchivalNetworkEvent failure_of_message heap_with_repeated_tag
                1 0 "read" "tcp" "1.2.3.4:443" 10 None 5 repeated_tag).1)
     = ["web"; "web"]) as Heq by (vm_compute; reflexivity).
  split; [exact Heq |]. rewrite Heq. intros Hnd.
  apply NoDup_cons in Hnd as [Hnotin _]. apply Hnotin. by left.
Qed.

(** C9, amended.  The tags of an event are never nil; they are the tags
    of the trace at the time of the call, in the same order and one for
    one (so without a duplicate exactly when the trace's tags are without
    one); they live in an array of their own, allocated by the call: a
    store through the trace's slice does not change the tags of the event,
    a store through the event's slice does not change the tags of the
    trace, and the call leaves the tags of the trace as they were. *)
Theorem event_tags_are_an_independent_copy (NewFailure : option error -> option string)
    (h : heap) (index started : Z) (operation network address : string) (count : Z)
    (err : option error) (finished : Z) (tags : slice) :
  valid h tags ->
  exists hd,
    Tags (NewArchivalNetworkEvent NewFailure h index started operation network
            address count err finished tags).1 = Some hd
    /\ elems (NewArchivalNetworkEvent NewFailure h index started operation network
                address count err finished tags).2 (Some hd)
       = elems h tags
    /\ (NoDup (elems (NewArchivalNetworkEvent NewFailure h index started operation
                        network address count err finished tags).2 (Some hd))
        <-> NoDup (elems h tags))
    /\ (arr hd ∉ dom h)
    /\ elems (NewArchivalNetworkEvent NewFailure h index started operation network
                address count err finished tags).2 tags
       = elems h tags
    /\ (forall t i x, tags = Some t ->
          elems (store (NewArchivalNetworkEvent NewFailure h index started operation
                          network address count err finished tags).2 t i x) (Some hd)
          = elems h tags)
    /\ (forall i x,
          elems (store (NewArchivalNetworkEvent NewFailure h index started operation
                          network address count err finished tags).2 hd i x) tags
          = elems h tags).
Proof.
  intros Hvalid. unfold NewArchivalNetworkEvent.
  destruct (copyAndNormalizeTags_spec h tags Hvalid)
    as (hd & h' & -> & Hfresh & Hlookup & Hoff & Hlen & Hframe).
  cbn [fst snd Tags]. exists hd. split; [done |].
  assert (elems h' (Some hd) = elems h tags) as Hcopy.
  { simpl. rewrite Hlookup, Hoff, Hlen. simpl. apply firstn_all. }
  assert (forall t, tags = Some t -> arr t ∈ dom h /\ arr t <> arr hd) as Hold.
  { intros t ->. destruct Hvalid as (a & Ha & _).
    assert (arr t ∈ dom h) as Hin by (apply elem_of_dom; by eexists).
    split; [done |]. intros Heq. apply Hfresh. by rewrite <- Heq. }
  assert (elems h' tags = elems h tags) as Hsame.
  { destruct tags as [t |]; [| done]. simpl.
    destruct (Hold t eq_refl) as [Hin _]. by rewrite (Hframe _ Hin). }
  split; [exact Hcopy |]. split; [by rewrite Hcopy |]. split; [exact Hfresh |].
  split; [exact Hsame |]. split.
  - intros t i x ->. destruct (Hold t eq_refl) as [_ Hne].
    rewrite <- Hcopy. unfold store, elems, heap, loc in *.
    by rewrite lookup_alter_ne.
  - intros i x. rewrite <- Hsame. destruct tags as [t |]; [| done].
    destruct (Hold t eq_refl) as [_ Hne].
    unfold store, elems, heap, loc in *. rewrite lookup_alter_ne; [done |].
    intros Heq. by apply Hne.
Qed.

Lemma event_tags_are_an_independent_copy_witness :
  exists hd,
    Tags (NewArchivalNetworkEvent failure_of_message heap_with_repeated_tag
            1 0 "read" "tcp" "1.2.3.4:443" 10 None 5 repeated_tag).1 = Some hd
    /\ (arr hd ∉ dom heap_with_repeated_tag).
Proof.
  assert (valid heap_with_repeated_tag repeated_tag) as Hvalid.
  { exists ["web"; "web"]. split; [reflexivity | simpl; lia]. }
  destruct (event_tags_are_an_independent_copy failure_of_message
              heap_with_repeated_tag 1 0 "read" "tcp" "1.2.3.4:443" 10 None 5
              repeated_tag Hvalid) as (hd & Htags & _ & _ & Hfresh & _).
  exists hd. split; [exact Htags | exact Hfresh].
Defined.

(** A read of four bytes on a new trace: the event that is queued and the
    entry of the bytes-received map. *)
Example Read_on_a_new_trace :
  exists s',
    Read failure_of_message clock_TimeSince (MaybeWrapNetConn sample_conn) buffer
      (state_of (new_trace 2)) = Return ((4, None), s')
    /\ bytesReceivedMap (st_tx s') !! "1.2.3.4:443 tcp" = Some 4
    /\ map (fun ev => (Operation ev, Proto ev, Address ev, NumBytes ev, T0 ev, T ev))
          (networkEvent (st_tx s'))
       = [("read", "tcp4", "1.2.3.4:443", 4, 0, 1000000)]
    /\ map (fun ev => elems (st_heap s') (Tags ev)) (networkEvent (st_tx s')) = [[]]
    /\ Forall (fun ev => Tags ev <> None) (networkEvent (st_tx s')).
Proof.
  eexists. split; [reflexivity |]. simpl.
  split; [reflexivity |]. split; [reflexivity |]. split; [reflexivity |].
  by repeat constructor.
Qed.

(** ** More on the wrappers *)

Lemma copyAndNormalizeTags_not_nil h tags :
  exists hd h', copyAndNormalizeTags h tags = (Some hd, h').
Proof.
  unfold copyAndNormalizeTags.
  destruct (decide (slice_len tags <= 0)%nat).
  - simpl. by eexists _, _.
  - cbv beta iota zeta delta [alloc].
    destruct (elems _ tags) as [| x xs]; simpl; by eexists _, _.
Qed.

Lemma networkEvent_select_send_default tx ev :
  networkEvent (select_send_default tx ev)
  = if decide (length (networkEvent tx) < networkEvent_cap tx)%nat
    then networkEvent tx ++ [ev] else networkEvent tx.
Proof. unfold select_send_default. by case_decide. Qed.

Section MoreProperties.

Context {World : Type}.
Variable NewFailure : option error -> option string.
Variable TimeSince : World -> Z -> Z.

(** The fields of a new event, whatever the tags. *)
Lemma NewArchivalNetworkEvent_fields h index started operation network address
    count err finished tags :
  exists ev h',
    NewArchivalNetworkEvent NewFailure h index started operation network address
      count err finished tags = (ev, h')
    /\ Address ev = address /\ Failure ev = NewFailure err
    /\ NumBytes ev = int64 count /\ Operation ev = operation /\ Proto ev = network
    /\ T0 ev = started /\ T ev = finished /\ TransactionID ev = index
    /\ Tags ev <> None.
Proof.
  unfold NewArchivalNetworkEvent.
  destruct (copyAndNormalizeTags_not_nil h tags) as (hd & h' & ->).
  eexists _, _. split; [reflexivity |]. by repeat split.
Qed.

(** What one call does to the trace: it offers one event, named after the
    operation, to the channel, and changes neither the capacity of the
    channel nor the index, the time origin or the tags. *)
Lemma run_call_trace (k : call World) (s s' : state World) :
  run_call NewFailure TimeSince k s = Return s' ->
  exists ev,
    Operation ev = call_Operation k
    /\ networkEvent (st_tx s') = networkEvent (select_send_default (st_tx s) ev)
    /\ networkEvent_cap (st_tx s') = networkEvent_cap (st_tx s)
    /\ Index (st_tx s') = Index (st_tx s)
    /\ ZeroTime (st_tx s') = ZeroTime (st_tx s)
    /\ tags (st_tx s') = tags (st_tx s).
Proof.
  assert (forall tx ev,
            networkEvent_cap (select_send_default tx ev) = networkEvent_cap tx
            /\ Index (select_send_default tx ev) = Index tx
            /\ ZeroTime (select_send_default tx ev) = ZeroTime tx
            /\ tags (select_send_default tx ev) = tags tx) as Hfix
    by (intros tx ev; unfold select_send_default; by case_decide).
  destruct k as [c b | c b | c b | c b addr]; simpl.
  - unfold Read. destruct (conn_RemoteAddr _ _) as [remote |]; [| discriminate].
    destruct (conn_Read _ _ _) as [[count err] w].
    destruct (NewArchivalNetworkEvent_fields (st_heap s) (Index (st_tx s))
                (TimeSince (st_world s) (ZeroTime (st_tx s))) ReadOperation
                (Network remote) (String_ remote) count err
                (TimeSince w (ZeroTime (st_tx s))) (tags (st_tx s)))
      as (ev & h' & -> & _ & _ & _ & Hop & _).
    intros [= <-]. exists ev. simpl. split; [done |]. split; [done |]. apply Hfix.
  - unfold Write. destruct (conn_RemoteAddr _ _) as [remote |]; [| discriminate].
    destruct (conn_Write _ _ _) as [[count err] w].
    destruct (NewArchivalNetworkEvent_fields (st_heap s) (Index (st_tx s))
                (TimeSince (st_world s) (ZeroTime (st_tx s))) WriteOperation
                (Network remote) (String_ remote) count err
                (TimeSince w (ZeroTime (st_tx s))) (tags (st_tx s)))
      as (ev & h' & -> & _ & _ & _ & Hop & _).
    intros [= <-]. exists ev. simpl. split; [done |]. split; [done |]. apply Hfix.
  - unfold ReadFrom. destruct (udp_ReadFrom _ _ _) as [[[count addr] err] w].
    destruct (NewArchivalNetworkEvent_fields (st_heap s) (Index (st_tx s))
                (TimeSince (st_world s) (ZeroTime (st_tx s))) ReadFromOperation
                "udp" (addrStringIfNotNil addr) count err
                (TimeSince w (ZeroTime (st_tx s))) (tags (st_tx s)))
      as (ev & h' & -> & _ & _ & _ & Hop & _).
    intros [= <-]. exists ev. simpl. split; [done |].
    destruct addr; simpl; (split; [done |]); apply Hfix.
  - unfold WriteTo. destruct addr as [a |]; [| discriminate].
    destruct (udp_WriteTo _ _ _ _) as [[count err] w].
    destruct (NewArchivalNetworkEvent_fields (st_heap s) (Index (st_tx s))
                (TimeSince (st_world s) (ZeroTime (st_tx s))) WriteToOperation
                "udp" (String_ a) count err
                (TimeSince w (ZeroTime (st_tx s))) (tags (st_tx s)))
      as (ev & h' & -> & _ & _ & _ & Hop & _).
    intros [= <-]. exists ev. simpl. split; [done |]. split; [done |]. apply Hfix.
Qed.

(** X9. After a sequence of calls of [Read], [Write], [ReadFrom] and
    [WriteTo] the channel holds what it held before, followed by the events
    of the calls, one per call and in the order of the calls, as far as
    they fit into the capacity: the events of the later calls are dropped.
    The capacity, the index, the time origin and the tags of the trace are
    as before. *)
Theorem calls_fill_the_queue_in_order (ks : list (call World)) :
  forall s s' : state World,
  run_calls NewFailure TimeSince ks s = Return s' ->
  (exists evs,
     map Operation evs = map call_Operation ks
     /\ networkEvent (st_tx s')
        = networkEvent (st_tx s)
          ++ take (networkEvent_cap (st_tx s) - length (networkEvent (st_tx s))) evs)
  /\ networkEvent_cap (st_tx s') = networkEvent_cap (st_tx s)
  /\ Index (st_tx s') = Index (st_tx s)
  /\ ZeroTime (st_tx s') = ZeroTime (st_tx s)
  /\ tags (st_tx s') = tags (st_tx s).
Proof.
  induction ks as [| k ks IH]; intros s s'; simpl.
  - intros [= <-]. split; [| done]. exists []. by rewrite take_nil, app_nil_r.
  - destruct (run_call NewFailure TimeSince k s) as [s1 |] eqn:Hk; [| discriminate].
    intros Hrest. destruct (run_call_trace _ _ _ Hk) as (ev & Hop & Hq & Hcap & Hfix).
    destruct (IH _ _ Hrest) as ((evs & Hops & Hq') & Hcap' & Hfix').
    split; [| destruct Hfix as (? & ? & ?), Hfix' as (? & ? & ?);
              repeat split; congruence].
    exists (ev :: evs). split; [simpl; congruence |].
    rewrite Hq', Hcap, Hq, networkEvent_select_send_default.
    case_decide as Hroom.
    + rewrite length_app. simpl.
      replace (networkEvent_cap (st_tx s) - length (networkEvent (st_tx s)))%nat
        with (S (networkEvent_cap (st_tx s)
                 - (length (networkEvent (st_tx s)) + 1)))%nat by lia.
      simpl. by rewrite <- app_assoc.
    + replace (networkEvent_cap (st_tx s) - length (networkEvent (st_tx s)))%nat
        with 0%nat by lia.
      by rewrite !take_0.
Qed.

(** X10. [Write] and [WriteTo] leave the bytes-received map as it is,
    whatever they write and whatever the underlying call returns. *)
Theorem writes_leave_the_accounting_alone (s : state World) (b : list byte) :
  (forall c r s', Write NewFailure TimeSince c b s = Return (r, s') ->
     bytesReceivedMap (st_tx s') = bytesReceivedMap (st_tx s))
  /\ (forall c addr r s', WriteTo NewFailure TimeSince c b addr s = Return (r, s') ->
        bytesReceivedMap (st_tx s') = bytesReceivedMap (st_tx s)).
Proof.
  split.
  - intros c r s'. unfold Write.
    destruct (conn_RemoteAddr _ _); [| discriminate].
    destruct (conn_Write _ _ _) as [[count err] w].
    destruct (NewArchivalNetworkEvent _ _ _ _ _ _ _ _ _ _ _) as [ev h].
    intros [= _ <-]. simpl. apply select_send_default_frame.
  - intros c addr r s'. unfold WriteTo. destruct addr as [a |]; [| discriminate].
    destruct (udp_WriteTo _ _ _ _) as [[count err] w].
    destruct (NewArchivalNetworkEvent _ _ _ _ _ _ _ _ _ _ _) as [ev h].
    intros [= _ <-]. simpl. apply select_send_default_frame.
Qed.

(** X11. [Read] adds the count of the underlying read to the entry of the
    remote address, under the key made of the address and the normalized
    network, on 64 bits; it does so whether the read failed or not and
    whether the event found room in the channel or not, and leaves the
    other entries alone. *)
Theorem Read_accounts_the_received_bytes (c : connTrace World) (b : list byte)
    (s : state World) (remote : Addr) :
  conn_RemoteAddr (Conn c) (st_world s) = Some remote ->
  exists s',
    Read NewFailure TimeSince c b s
    = Return ((conn_Read (Conn c) b (st_world s)).1, s')
    /\ bytesReceivedMap (st_tx s') !! key_of (Network remote) (String_ remote)
       = Some (int64 (default 0 (bytesReceivedMap (st_tx s)
                                   !! key_of (Network remote) (String_ remote))
                      + int64 (conn_Read (Conn c) b (st_world s)).1.1))
    /\ forall key, key <> key_of (Network remote) (String_ remote) ->
         bytesReceivedMap (st_tx s') !! key = bytesReceivedMap (st_tx s) !! key.
Proof.
  intros Hra. unfold Read. rewrite Hra.
  destruct (conn_Read (Conn c) b (st_world s)) as [[count err] w].
  destruct (NewArchivalNetworkEvent _ _ _ _ _ _ _ _ _ _ _) as [ev h].
  eexists. split; [reflexivity |]. simpl.
  destruct (select_send_default_frame (st_tx s) ev) as (-> & _).
  fold (key_of (Network remote) (String_ remote)).
  split; [by rewrite lookup_insert_eq |].
  intros key Hne. by rewrite lookup_insert_ne.
Qed.

(** X12. When the underlying [ReadFrom] reports a sender, the count is
    added to the entry of the sender, under the sender's own address and
    normalized network, whatever the error; the event of the call has the
    sender's address and the network "udp". *)
Theorem ReadFrom_accounts_under_the_sender (c : udpLikeConnTrace World)
    (b : list byte) (s : state World) count (sender : Addr) err w :
  udp_ReadFrom (UDPLikeConn_ c) b (st_world s) = ((count, Some sender, err), w) ->
  bytesReceivedMap (st_tx (ReadFrom NewFailure TimeSince c b s).2)
  = <[key_of (Network sender) (String_ sender) :=
        int64 (default 0 (bytesReceivedMap (st_tx s)
                            !! key_of (Network sender) (String_ sender))
               + int64 count)]> (bytesReceivedMap (st_tx s))
  /\ exists ev,
       Address ev = String_ sender /\ Proto ev = "udp"
       /\ networkEvent (st_tx (ReadFrom NewFailure TimeSince c b s).2)
          = networkEvent (select_send_default (st_tx s) ev).
Proof.
  intros Hread. unfold ReadFrom. rewrite Hread.
  destruct (NewArchivalNetworkEvent_fields (st_heap s) (Index (st_tx s))
              (TimeSince (st_world s) (ZeroTime (st_tx s))) ReadFromOperation
              "udp" (addrStringIfNotNil (Some sender)) count err
              (TimeSince w (ZeroTime (st_tx s))) (tags (st_tx s)))
    as (ev & h' & -> & Haddr & _ & _ & _ & Hproto & _).
  simpl. destruct (select_send_default_frame (st_tx s) ev) as (-> & _).
  split; [done |]. by exists ev.
Qed.

(** X13. When the channel has room, [Read] and [Write] append one event
    that reports the call as the caller sees it: the count and the
    classification of the error that the call returns, the network and the
    address of the remote end as the connection gives them (the network
    is not normalized here), the index of the trace, and the clock read
    before and after the underlying call; its tags are not nil. *)
Theorem Read_and_Write_events_report_the_call (c : connTrace World) (b : list byte)
    (s : state World) (remote : Addr) :
  conn_RemoteAddr (Conn c) (st_world s) = Some remote ->
  (length (networkEvent (st_tx s)) < networkEvent_cap (st_tx s))%nat ->
  (exists s' ev,
     Read NewFailure TimeSince c b s
     = Return ((conn_Read (Conn c) b (st_world s)).1, s')
     /\ networkEvent (st_tx s') = networkEvent (st_tx s) ++ [ev]
     /\ Operation ev = ReadOperation
     /\ Proto ev = Network remote /\ Address ev = String_ remote
     /\ NumBytes ev = int64 (conn_Read (Conn c) b (st_world s)).1.1
     /\ Failure ev = NewFailure (conn_Read (Conn c) b (st_world s)).1.2
     /\ TransactionID ev = Index (st_tx s)
     /\ T0 ev = TimeSince (st_world s) (ZeroTime (st_tx s))
     /\ T ev = TimeSince (conn_Read (Conn c) b (st_world s)).2 (ZeroTime (st_tx s))
     /\ Tags ev <> None)
  /\ (exists s' ev,
        Write NewFailure TimeSince c b s
        = Return ((conn_Write (Conn c) b (st_world s)).1, s')
        /\ networkEvent (st_tx s') = networkEvent (st_tx s) ++ [ev]
        /\ Operation ev = WriteOperation
        /\ Proto ev = Network remote /\ Address ev = String_ remote
        /\ NumBytes ev = int64 (conn_Write (Conn c) b (st_world s)).1.1
        /\ Failure ev = NewFailure (conn_Write (Conn c) b (st_world s)).1.2
        /\ TransactionID ev = Index (st_tx s)
        /\ T0 ev = TimeSince (st_world s) (ZeroTime (st_tx s))
        /\ T ev = TimeSince (conn_Write (Conn c) b (st_world s)).2 (ZeroTime (st_tx s))
        /\ Tags ev <> None).
Proof.
  intros Hra Hroom. split.
  - unfold Read. rewrite Hra.
    destruct (conn_Read (Conn c) b (st_world s)) as [[count err] w].
    destruct (NewArchivalNetworkEvent_fields (st_heap s) (Index (st_tx s))
                (TimeSince (st_world s) (ZeroTime (st_tx s))) ReadOperation
                (Network remote) (String_ remote) count err
                (TimeSince w (ZeroTime (st_tx s))) (tags (st_tx s)))
      as (ev & h' & -> & Ha & Hf & Hn & Ho & Hp & Ht0 & Ht & Hi & Htags).
    eexists _, ev. split; [reflexivity |]. simpl.
    rewrite select_send_default_room by done. simpl. by repeat split.
  - unfold Write. rewrite Hra.
    destruct (conn_Write (Conn c) b (st_world s)) as [[count err] w].
    destruct (NewArchivalNetworkEvent_fields (st_heap s) (Index (st_tx s))
                (TimeSince (st_world s) (ZeroTime (st_tx s))) WriteOperation
                (Network remote) (String_ remote) count err
                (TimeSince w (ZeroTime (st_tx s))) (tags (st_tx s)))
      as (ev & h' & -> & Ha & Hf & Hn & Ho & Hp & Ht0 & Ht & Hi & Htags).
    eexists _, ev. split; [reflexivity |]. simpl.
    rewrite select_send_default_room by done. simpl. by repeat split.
Qed.

End MoreProperties.

Lemma calls_fill_the_queue_in_order_witness :
  exists s',
    run_calls failure_of_message clock_TimeSince three_calls (state_of (new_trace 2))
    = Return s'
    /\ networkEvent_cap (st_tx s') = 2%nat
    /\ exists evs,
         map Operation evs = ["read"; "write"; "read_from"]
         /\ networkEvent (st_tx s') = take 2 evs.
Proof.
  assert (exists s',
            run_calls failure_of_message clock_TimeSince three_calls
              (state_of (new_trace 2)) = Return s') as [s' Hs']
    by (eexists; reflexivity).
  exists s'. split; [exact Hs' |].
  destruct (calls_fill_the_queue_in_order failure_of_message clock_TimeSince
              three_calls _ _ Hs') as ((evs & Hops & Hq) & Hcap & _).
  split; [exact Hcap |]. exists evs. split; [exact Hops | exact Hq].
Defined.

Lemma writes_leave_the_accounting_alone_witness :
  exists s',
    Write failure_of_message clock_TimeSince (MaybeWrapNetConn sample_conn) buffer
      (state_of full_trace) = Return ((0, Some (errors_New "broken pipe")), s')
    /\ bytesReceivedMap (st_tx s') = <["1.2.3.4:443 tcp" := 10]> ∅.
Proof.
  assert (exists s',
            Write failure_of_message clock_TimeSince (MaybeWrapNetConn sample_conn)
              buffer (state_of full_trace)
            = Return ((0, Some (errors_New "broken pipe")), s')) as [s' Hs']
    by (eexists; reflexivity).
  exists s'. split; [exact Hs' |].
  destruct (writes_leave_the_accounting_alone failure_of_message clock_TimeSince
              (state_of full_trace) buffer) as [Hwrite _].
  exact (Hwrite _ _ _ Hs').
Defined.

Lemma Read_accounts_the_received_bytes_witness :
  exists s',
    Read failure_of_message clock_TimeSince (MaybeWrapNetConn sample_conn) buffer
      (state_of full_trace) = Return ((4, None), s')
    /\ bytesReceivedMap (st_tx s') !! "1.2.3.4:443 tcp" = Some 14.
Proof.
  destruct (Read_accounts_the_received_bytes failure_of_message clock_TimeSince
              (MaybeWrapNetConn sample_conn) buffer (state_of full_trace) peer eq_refl)
    as (s' & Heq & Hkey & _).
  exists s'. split; [exact Heq | exact Hkey].
Defined.

Lemma ReadFrom_accounts_under_the_sender_witness :
  bytesReceivedMap
    (st_tx (ReadFrom failure_of_message clock_TimeSince
              (MaybeWrapUDPLikeConn answering_udp) buffer (state_of (new_trace 2))).2)
  = <["8.8.8.8:53 udp" := 4]> ∅.
Proof.
  destruct (ReadFrom_accounts_under_the_sender failure_of_message clock_TimeSince
              (MaybeWrapUDPLikeConn answering_udp) buffer (state_of (new_trace 2))
              4 resolver None 1000000 eq_refl) as [Hmap _].
  exact Hmap.
Defined.

Lemma Read_and_Write_events_report_the_call_witness :
  exists s' ev,
    Read failure_of_message clock_TimeSince (MaybeWrapNetConn sample_conn) buffer
      (state_of (new_trace 2)) = Return ((4, None), s')
    /\ networkEvent (st_tx s') = [ev]
    /\ Proto ev = "tcp4" /\ NumBytes ev = 4 /\ T0 ev = 0 /\ T ev = 1000000.
Proof.
  assert (length (networkEvent (st_tx (state_of (new_trace 2))))
          < networkEvent_cap (st_tx (state_of (new_trace 2))))%nat as Hroom
    by (simpl; lia).
  destruct (Read_and_Write_events_report_the_call failure_of_message clock_TimeSince
              (MaybeWrapNetConn sample_conn) buffer (state_of (new_trace 2)) peer
              eq_refl Hroom) as [(s' & ev & Heq & Hq & _ & Hp & _ & Hn & _ & _ & H0 & H1 & _) _].
  exists s', ev. split; [exact Heq |]. split; [exact Hq |].
  split; [exact Hp |]. split; [exact Hn |]. split; [exact H0 | exact H1].
Defined.

(** ** More on the channel and on the map *)

(** X14. [FirstNetworkEventOrNil] returns the oldest queued event, and nil
    exactly when the channel is empty; in both cases it empties the
    channel, so that the other queued events are gone and a call of
    [NetworkEvents] right after returns nothing; the bytes-received map
    is not touched. *)
Theorem FirstNetworkEventOrNil_takes_the_oldest_and_drops_the_rest (tx : Trace) :
  (FirstNetworkEventOrNil tx).1 = head (networkEvent tx)
  /\ ((FirstNetworkEventOrNil tx).1 = None <-> networkEvent tx = [])
  /\ networkEvent (FirstNetworkEventOrNil tx).2 = []
  /\ (NetworkEvents (FirstNetworkEventOrNil tx).2).1 = []
  /\ bytesReceivedMap (FirstNetworkEventOrNil tx).2 = bytesReceivedMap tx
  /\ networkEvent_cap (FirstNetworkEventOrNil tx).2 = networkEvent_cap tx.
Proof.
  unfold FirstNetworkEventOrNil, NetworkEvents.
  rewrite NetworkEvents_loop_spec. simpl.
  destruct (networkEvent tx) as [| ev q] eqn:Hq; simpl.
  - by repeat split.
  - repeat split; try done; try (case_decide; [simpl in *; lia | done]).
Qed.

Lemma int64_add_r x y : int64 (x + int64 y) = int64 (x + y).
Proof. rewrite (Z.add_comm x), int64_add_l. f_equal. ring. Qed.

Lemma recorded_under_absent key records :
  ~ Exists (fun r => key_of r.1.1 r.1.2 = key) records ->
  recorded_under key records = 0.
Proof.
  induction records as [| r rs IH]; [done |]. intros Hno. simpl.
  rewrite decide_False by (intros Heq; apply Hno; by left).
  apply IH. intros Hex. apply Hno. by right.
Qed.

Lemma record_all_lookup records : forall tx key,
  bytesReceivedMap (record_all tx records) !! key
  = if decide (Exists (fun r => key_of r.1.1 r.1.2 = key) records)
    then Some (int64 (default 0 (bytesReceivedMap tx !! key)
                      + recorded_under key records))
    else bytesReceivedMap tx !! key.
Proof.
  induction records as [| [[network address] count] rs IH]; intros tx key.
  - unfold record_all. simpl foldl.
    destruct (decide (Exists _ [])) as [Hex | _]; [by apply Exists_nil in Hex | done].
  - unfold record_all in *. simpl foldl. rewrite IH.
    rewrite updateBytesReceivedMapNetConn_spec. fold (key_of network address).
    simpl recorded_under. simpl.
    destruct (decide (key_of network address = key)) as [Heq | Hne].
    + rewrite Heq, lookup_insert_eq. simpl.
      rewrite (decide_True (P := Exists _ (_ :: _))) by (by left).
      destruct (decide (Exists _ rs)) as [Hex | Hno].
      * f_equal. rewrite int64_add_l.
        replace (default 0 (bytesReceivedMap tx !! key) + int64 count
                 + recorded_under key rs)
          with (default 0 (bytesReceivedMap tx !! key) + recorded_under key rs
                + int64 count) by ring.
        rewrite int64_add_r. f_equal. ring.
      * rewrite (recorded_under_absent _ _ Hno). f_equal.
        rewrite int64_add_r. f_equal. ring.
    + rewrite lookup_insert_ne by done.
      destruct (decide (Exists _ rs)) as [Hex | Hno].
      * by rewrite decide_True by (by right).
      * rewrite decide_False; [done |].
        intros [Heq | Hex]%Exists_cons; [by apply Hne | by apply Hno].
Qed.

Lemma recorded_under_Permutation key records1 records2 :
  records1 ≡ₚ records2 -> recorded_under key records1 = recorded_under key records2.
Proof.
  induction 1 as [| r l1 l2 _ IH | r1 r2 l | l1 l2 l3 _ IH1 _ IH2]; simpl.
  - done.
  - by rewrite IH.
  - repeat case_decide; lia.
  - by rewrite IH1.
Qed.

(** X15. After any sequence of calls of [updateBytesReceivedMapNetConn], a
    key under which nothing was recorded is as before, and a key under
    which something was recorded holds what it held before (nothing, for a
    new key) plus the sum of the counts recorded under it, on 64 bits.
    So the order of the calls does not matter for the map. *)
Theorem record_all_adds_up (tx : Trace) (records : list (string * string * Z)) :
  (forall key,
     bytesReceivedMap (record_all tx records) !! key
     = if decide (Exists (fun r => key_of r.1.1 r.1.2 = key) records)
       then Some (int64 (default 0 (bytesReceivedMap tx !! key)
                         + recorded_under key records))
       else bytesReceivedMap tx !! key)
  /\ (forall records', records ≡ₚ records' ->
        bytesReceivedMap (record_all tx records')
        = bytesReceivedMap (record_all tx records)).
Proof.
  split; [apply record_all_lookup |].
  intros records' Hperm. apply map_eq. intros key.
  rewrite !record_all_lookup.
  rewrite (recorded_under_Permutation key _ _ Hperm).
  destruct (decide (Exists _ records)) as [Hex | Hno].
  - rewrite decide_True; [done |]. by rewrite <- Hperm.
  - rewrite decide_False; [done |]. by rewrite <- Hperm.
Qed.

Lemma record_all_adds_up_witness :
  bytesReceivedMap
    (record_all (new_trace 2)
       [("udp6", "8.8.8.8:53", 7); ("tcp4", "1.2.3.4:443", 100);
        ("tcp6", "1.2.3.4:443", 50)])
  = bytesReceivedMap
      (record_all (new_trace 2)
         [("tcp4", "1.2.3.4:443", 100); ("tcp6", "1.2.3.4:443", 50);
          ("udp6", "8.8.8.8:53", 7)]).
Proof.
  destruct (record_all_adds_up (new_trace 2)
              [("tcp4", "1.2.3.4:443", 100); ("tcp6", "1.2.3.4:443", 50);
               ("udp6", "8.8.8.8:53", 7)]) as [_ H].
  apply H. symmetry.
  apply (Permutation_cons_append [("tcp4", "1.2.3.4:443", 100);
                                  ("tcp6", "1.2.3.4:443", 50)]
           ("udp6", "8.8.8.8:53", 7)).
Defined.

(** X16. The clone of the bytes-received map has the entries of the map,
    all of them and no other, whatever the order in which the loop visits
    them. *)
Theorem CloneBytesReceivedMap_copies_every_entry (tx : Trace) :
  (forall key, CloneBytesReceivedMap tx !! key = bytesReceivedMap tx !! key)
  /\ dom (CloneBytesReceivedMap tx) = dom (bytesReceivedMap tx)
  /\ size (CloneBytesReceivedMap tx) = size (bytesReceivedMap tx)
  /\ (forall network address count key,
        CloneBytesReceivedMap (updateBytesReceivedMapNetConn tx network address count)
          !! key
        = if decide (key = key_of network address)
          then Some (int64 (default 0 (CloneBytesReceivedMap tx !! key) + int64 count))
          else CloneBytesReceivedMap tx !! key).
Proof.
  rewrite CloneBytesReceivedMap_eq. repeat split.
  intros network address count key.
  rewrite !CloneBytesReceivedMap_eq, updateBytesReceivedMapNetConn_spec.
  fold (key_of network address).
  case_decide as Hkey.
  - subst key. by rewrite lookup_insert_eq.
  - by rewrite lookup_insert_ne.
Qed.

(** X17. Normalizing a network name twice is the same as normalizing it
    once; the result is "tcp" exactly for "tcp", "tcp4" and "tcp6", "udp"
    exactly for "udp", "udp4" and "udp6", and every other name is left as
    it is. *)
Theorem normalizeNetwork_idempotent (network : string) :
  normalizeNetwork (normalizeNetwork network) = normalizeNetwork network
  /\ (normalizeNetwork network = "tcp"
      <-> network = "tcp" \/ network = "tcp4" \/ network = "tcp6")
  /\ (normalizeNetwork network = "udp"
      <-> network = "udp" \/ network = "udp4" \/ network = "udp6")
  /\ (normalizeNetwork network <> "tcp" -> normalizeNetwork network <> "udp" ->
      normalizeNetwork network = network).
Proof.
  destruct (decide (network = "udp")) as [-> | Hudp];
    [repeat split; try done; intros; naive_solver |].
  destruct (decide (network = "udp4")) as [-> | Hudp4];
    [repeat split; try done; intros; naive_solver |].
  destruct (decide (network = "udp6")) as [-> | Hudp6];
    [repeat split; try done; intros; naive_solver |].
  destruct (decide (network = "tcp")) as [-> | Htcp];
    [repeat split; try done; intros; naive_solver |].
  destruct (decide (network = "tcp4")) as [-> | Htcp4];
    [repeat split; try done; intros; naive_solver |].
  destruct (decide (network = "tcp6")) as [-> | Htcp6];
    [repeat split; try done; intros; naive_solver |].
  assert (normalizeNetwork network = network) as Hsame.
  { unfold normalizeNetwork. by rewrite !bool_decide_eq_false_2. }
  rewrite !Hsame. repeat split; try done; intros; naive_solver.
Qed.

Lemma normalizeNetwork_idempotent_witness : normalizeNetwork "unix" = "unix".
Proof.
  destruct (normalizeNetwork_idempotent "unix") as (_ & _ & _ & H).
  apply H; discriminate.
Defined.

End conn_spec.

(** * Properties of ipinfo.go *)
Module ipinfo_spec.
Import oohelperd.

Lemma less_true_by_Epnt a b : less a b = true -> by_Epnt a b.
Proof.
  unfold less, by_Epnt, String.le, String.ltb, String.leb.
  destruct (Epnt a ?= Epnt b)%string; simpl; intros; first [done | discriminate].
Qed.

Lemma less_false_by_Epnt a b : less a b = false -> by_Epnt b a.
Proof.
  unfold less, by_Epnt, String.le, String.ltb, String.leb.
  rewrite (String.compare_antisym (Epnt b) (Epnt a)).
  destruct (Epnt a ?= Epnt b)%string; simpl; intros; first [done | discriminate].
Qed.

Lemma insert_stable_Permutation x l : insert_stable x l ≡ₚ x :: l.
Proof.
  induction l as [| y l IH]; simpl; [done |].
  destruct (less y x); [| done]. rewrite IH. apply Permutation_swap.
Qed.

Lemma sort_SliceStable_Permutation l : sort_SliceStable l ≡ₚ l.
Proof.
  induction l as [| x l IH]; simpl; [done |].
  by rewrite insert_stable_Permutation, IH.
Qed.

Lemma insert_stable_Sorted x l :
  Sorted by_Epnt l -> Sorted by_Epnt (insert_stable x l).
Proof.
  induction 1 as [| y l Hl IH Hhd]; simpl.
  - by repeat constructor.
  - destruct (less y x) eqn:Hless.
    + constructor; [exact IH |].
      destruct Hhd as [| z l Hyz]; simpl.
      * constructor. by apply less_true_by_Epnt.
      * destruct (less z x); constructor; [done | by apply less_true_by_Epnt].
    + constructor; [by constructor |]. constructor. by apply less_false_by_Epnt.
Qed.

Lemma sort_SliceStable_Sorted l : Sorted by_Epnt (sort_SliceStable l).
Proof.
  induction l as [| x l IH]; simpl; [constructor | by apply insert_stable_Sorted].
Qed.

(** Sorting a sorted slice changes nothing. *)
Lemma insert_stable_head x l :
  Forall (fun y => less y x = false) l -> insert_stable x l = x :: l.
Proof. destruct 1 as [| y l Hy _]; simpl; [done |]. by rewrite Hy. Qed.

(** *** Strings as lists of characters *)

Lemma append_cons a s1 s2 : String a s1 +:+ s2 = String a (s1 +:+ s2).
Proof. reflexivity. Qed.

Lemma chars_append s1 s2 :
  String.list_ascii_of_string (s1 +:+ s2)
  = String.list_ascii_of_string s1 ++ String.list_ascii_of_string s2.
Proof.
  induction s1 as [| a s1 IH]; [done |].
  rewrite append_cons. simpl. by rewrite IH.
Qed.

Lemma chars_inj s1 s2 :
  String.list_ascii_of_string s1 = String.list_ascii_of_string s2 -> s1 = s2.
Proof.
  intros H. rewrite <- (String.string_of_list_ascii_of_string s1),
    <- (String.string_of_list_ascii_of_string s2). by rewrite H.
Qed.

Lemma append_inj_r s1 s2 t : s1 +:+ t = s2 +:+ t -> s1 = s2.
Proof.
  intros H. apply chars_inj. apply (f_equal String.list_ascii_of_string) in H.
  rewrite !chars_append in H. by apply app_inv_tail in H.
Qed.

Lemma contains_colon_append s1 s2 :
  contains_colon (s1 +:+ s2) = contains_colon s1 || contains_colon s2.
Proof. unfold contains_colon. by rewrite chars_append, existsb_app. Qed.

(** With the same port, [net.JoinHostPort] tells the hosts apart. *)
Lemma net_JoinHostPort_inj_host port host1 host2 :
  net_JoinHostPort host1 port = net_JoinHostPort host2 port -> host1 = host2.
Proof.
  unfold net_JoinHostPort.
  destruct (contains_colon host1) eqn:H1, (contains_colon host2) eqn:H2; intros H.
  - apply (String.app_inj "[") in H.
    by apply (append_inj_r host1 host2 ("]:" +:+ port)).
  - exfalso.
    assert (host2 = "[" +:+ host1 +:+ "]") as Heq.
    { apply (append_inj_r _ _ (":" +:+ port)). rewrite <- H.
      apply chars_inj. rewrite !chars_append. simpl.
      by rewrite <- !app_assoc. }
    rewrite Heq, !contains_colon_append, H1 in H2. by simpl in H2.
  - exfalso.
    assert (host1 = "[" +:+ host2 +:+ "]") as Heq.
    { apply (append_inj_r _ _ (":" +:+ port)). rewrite H.
      apply chars_inj. rewrite !chars_append. simpl.
      by rewrite <- !app_assoc. }
    rewrite Heq, !contains_colon_append, H2 in H1. by simpl in H1.
  - by apply (append_inj_r host1 host2 (":" +:+ port)).
Qed.

(** An endpoint on port 80 is never an endpoint on port 443. *)
Lemma net_JoinHostPort_80_443 host1 host2 :
  net_JoinHostPort host1 "80" <> net_JoinHostPort host2 "443".
Proof.
  intros H. apply (f_equal String.list_ascii_of_string) in H.
  assert (forall host,
            exists l, String.list_ascii_of_string (net_JoinHostPort host "80")
                      = l ++ ["0"%char]) as H80.
  { intros host. unfold net_JoinHostPort. destruct (contains_colon host).
    - exists (String.list_ascii_of_string ("[" +:+ host +:+ "]:8")).
      rewrite !chars_append. simpl. by rewrite <- !app_assoc.
    - exists (String.list_ascii_of_string (host +:+ ":8")).
      rewrite !chars_append. simpl. by rewrite <- !app_assoc. }
  assert (forall host,
            exists l, String.list_ascii_of_string (net_JoinHostPort host "443")
                      = l ++ ["3"%char]) as H443.
  { intros host. unfold net_JoinHostPort. destruct (contains_colon host).
    - exists (String.list_ascii_of_string ("[" +:+ host +:+ "]:44")).
      rewrite !chars_append. simpl. by rewrite <- !app_assoc.
    - exists (String.list_ascii_of_string (host +:+ ":44")).
      rewrite !chars_append. simpl. by rewrite <- !app_assoc. }
  destruct (H80 host1) as [l1 Hl1], (H443 host2) as [l2 Hl2].
  rewrite Hl1, Hl2 in H. apply app_inj_tail in H as [_ H]. discriminate.
Qed.

(** Among the ports chosen for one URL, the endpoint tells both the
    address and the port. *)
Lemma endpoint_inj URL addr1 port1 addr2 port2 :
  port1 ∈ ports_of URL -> port2 ∈ ports_of URL ->
  net_JoinHostPort addr1 port1 = net_JoinHostPort addr2 port2 ->
  addr1 = addr2 /\ port1 = port2.
Proof.
  unfold ports_of.
  destruct (negb (bool_decide (Port URL = EmptyString))).
  { intros ->%list_elem_of_singleton ->%list_elem_of_singleton H.
    split; [by eapply net_JoinHostPort_inj_host | done]. }
  destruct (bool_decide (Scheme URL = "https")).
  { intros ->%list_elem_of_singleton ->%list_elem_of_singleton H.
    split; [by eapply net_JoinHostPort_inj_host | done]. }
  destruct (bool_decide (Scheme URL = "http")); [| by intros ?%elem_of_nil].
  intros H1 H2 H.
  apply elem_of_cons in H1 as [-> | ->%list_elem_of_singleton];
    apply elem_of_cons in H2 as [-> | ->%list_elem_of_singleton].
  - split; [by eapply net_JoinHostPort_inj_host | done].
  - by apply net_JoinHostPort_80_443 in H.
  - symmetry in H. by apply net_JoinHostPort_80_443 in H.
  - split; [by eapply net_JoinHostPort_inj_host | done].
Qed.

Section IPInfo.

Variable net_SplitHostPort : string -> option (string * string).
Variable net_ParseIP : string -> bool.
Variable IsBogon : string -> bool.
Variable LookupASN : string -> Z.
Variable THIPInfoFlagResolvedByProbe : Z.
Variable THIPInfoFlagResolvedByTH : Z.
Variable THIPInfoFlagIsBogon : Z.

Lemma endpoints_in_order_bind ports visit :
  endpoints_in_order THIPInfoFlagIsBogon ports visit
  = visit ≫= endpoints_of THIPInfoFlagIsBogon ports.
Proof.
  unfold endpoints_in_order.
  assert (forall a out,
            foldl (fun out port => out ++ [endpoint a port]) out ports
            = out ++ (endpoint a <$> ports)) as Hinner.
  { intros a. induction ports as [| p ps IH]; intros out; simpl.
    - by rewrite app_nil_r.
    - rewrite IH. by rewrite <- app_assoc. }
  assert (forall out,
            foldl (fun out entry =>
                     if flagged_bogon THIPInfoFlagIsBogon entry.2 then out
                     else foldl (fun out port => out ++ [endpoint entry.1 port])
                            out ports) out visit
            = out ++ (visit ≫= endpoints_of THIPInfoFlagIsBogon ports)) as Houter.
  { induction visit as [| entry visit IH]; intros out; simpl.
    - by rewrite app_nil_r.
    - rewrite IH. unfold endpoints_of at 2.
      destruct (flagged_bogon THIPInfoFlagIsBogon entry.2); simpl; [done |].
      by rewrite Hinner, <- app_assoc. }
  apply (Houter []).
Qed.

#[local] Instance by_Epnt_transitive : Transitive by_Epnt.
Proof. intros a b c. unfold by_Epnt. apply transitivity. Qed.

Lemma flagged_bogon_false info :
  flagged_bogon THIPInfoFlagIsBogon info = false
  <-> Z.land (Flags info) THIPInfoFlagIsBogon = 0.
Proof.
  unfold flagged_bogon. rewrite negb_false_iff. apply Z.eqb_eq.
Qed.

Lemma elem_of_endpoints URL visit e :
  e ∈ ipInfoToEndpoints THIPInfoFlagIsBogon URL visit
  <-> exists addr info port,
        (addr, info) ∈ visit
        /\ Z.land (Flags info) THIPInfoFlagIsBogon = 0
        /\ port ∈ ports_of URL
        /\ e = endpoint addr port.
Proof.
  unfold ipInfoToEndpoints.
  rewrite sort_SliceStable_Permutation, endpoints_in_order_bind, list_elem_of_bind.
  split.
  - intros ([addr info] & He & Hin). unfold endpoints_of in He. simpl in He.
    destruct (flagged_bogon THIPInfoFlagIsBogon info) eqn:Hf;
      [by apply elem_of_nil in He |].
    apply list_elem_of_fmap in He as (port & -> & Hport).
    exists addr, info, port. by rewrite <- flagged_bogon_false.
  - intros (addr & info & port & Hin & Hf & Hport & ->).
    exists (addr, info). split; [| done]. unfold endpoints_of. simpl.
    apply flagged_bogon_false in Hf. rewrite Hf.
    apply list_elem_of_fmap. by exists port.
Qed.

(** X18. The endpoints that [ipInfoToEndpoints] returns are those of the
    addresses of the map whose bogon flag is not set, one for each chosen
    port, and no other: the address, the address joined with the port, and
    whether the port is "443".  With several ports or addresses each
    combination is there as many times as it is generated. *)
Theorem ipInfoToEndpoints_skips_bogons_and_covers_the_rest (URL : url_URL)
    (visit : list (string * THIPInfo)) :
  (forall e,
     e ∈ ipInfoToEndpoints THIPInfoFlagIsBogon URL visit
     <-> exists addr info port,
           (addr, info) ∈ visit
           /\ Z.land (Flags info) THIPInfoFlagIsBogon = 0
           /\ port ∈ ports_of URL
           /\ Addr e = addr /\ Epnt e = net_JoinHostPort addr port
           /\ TLS e = bool_decide (port = "443"))
  /\ ipInfoToEndpoints THIPInfoFlagIsBogon URL visit
     ≡ₚ visit ≫= endpoints_of THIPInfoFlagIsBogon (ports_of URL)
  /\ length (ipInfoToEndpoints THIPInfoFlagIsBogon URL visit)
     = (length (filter (fun entry =>
                          Z.land (Flags entry.2) THIPInfoFlagIsBogon = 0%Z) visit)
        * length (ports_of URL))%nat.
Proof.
  split; [| split].
  - intros e. rewrite elem_of_endpoints. split.
    + intros (addr & info & port & Hin & Hf & Hport & ->).
      by exists addr, info, port.
    + intros (addr & info & port & Hin & Hf & Hport & Ha & He & Ht).
      exists addr, info, port. repeat split; try done.
      destruct e as [a e t]. simpl in *. by subst.
  - unfold ipInfoToEndpoints.
    by rewrite sort_SliceStable_Permutation, endpoints_in_order_bind.
  - unfold ipInfoToEndpoints.
    rewrite sort_SliceStable_Permutation, endpoints_in_order_bind.
    induction visit as [| [addr info] visit IH]; [done |].
    change (((addr, info) :: visit) ≫= endpoints_of THIPInfoFlagIsBogon (ports_of URL))
      with (endpoints_of THIPInfoFlagIsBogon (ports_of URL) (addr, info)
            ++ (visit ≫= endpoints_of THIPInfoFlagIsBogon (ports_of URL))).
    rewrite length_app, IH, filter_cons.
    unfold endpoints_of at 1. cbn [fst snd].
    destruct (flagged_bogon THIPInfoFlagIsBogon info) eqn:Hf.
    + rewrite decide_False; [done |].
      rewrite <- flagged_bogon_false. congruence.
    + rewrite decide_True by (by apply flagged_bogon_false).
      rewrite length_fmap. simpl. lia.
Qed.

(** X19. The endpoints come out sorted by [Epnt], byte-wise: each one is
    at most any later one. *)
Theorem ipInfoToEndpoints_sorted (URL : url_URL) (visit : list (string * THIPInfo)) :
  StronglySorted by_Epnt (ipInfoToEndpoints THIPInfoFlagIsBogon URL visit).
Proof.
  apply Sorted_StronglySorted; [apply _ |]. apply sort_SliceStable_Sorted.
Qed.

(** X20. The ports are chosen as the comment of [ipInfoToEndpoints] says.
    With a port in the URL every endpoint uses it, whatever the scheme.
    Without one, "https" gives port 443 with TLS only, "http" gives for
    each address that is not a bogon port 80 without TLS and port 443 with
    TLS, and any other scheme gives no endpoint at all. *)
Theorem ipInfoToEndpoints_ports_as_documented (URL : url_URL)
    (visit : list (string * THIPInfo)) :
  (Port URL <> EmptyString ->
     Forall (fun e => Epnt e = net_JoinHostPort (Addr e) (Port URL)
                      /\ TLS e = bool_decide (Port URL = "443"))
       (ipInfoToEndpoints THIPInfoFlagIsBogon URL visit))
  /\ (Port URL = EmptyString -> Scheme URL = "https" ->
        Forall (fun e => Epnt e = net_JoinHostPort (Addr e) "443" /\ TLS e = true)
          (ipInfoToEndpoints THIPInfoFlagIsBogon URL visit))
  /\ (Port URL = EmptyString -> Scheme URL = "http" ->
        Forall (fun e => (Epnt e = net_JoinHostPort (Addr e) "80" /\ TLS e = false)
                         \/ (Epnt e = net_JoinHostPort (Addr e) "443" /\ TLS e = true))
          (ipInfoToEndpoints THIPInfoFlagIsBogon URL visit)
        /\ forall addr info,
             (addr, info) ∈ visit ->
             Z.land (Flags info) THIPInfoFlagIsBogon = 0 ->
             endpoint addr "80" ∈ ipInfoToEndpoints THIPInfoFlagIsBogon URL visit
             /\ endpoint addr "443" ∈ ipInfoToEndpoints THIPInfoFlagIsBogon URL visit)
  /\ (Port URL = EmptyString -> Scheme URL <> "https" -> Scheme URL <> "http" ->
        ipInfoToEndpoints THIPInfoFlagIsBogon URL visit = []).
Proof.
  split; [| split; [| split]].
  - intros Hport. apply Forall_forall. intros e.
    rewrite elem_of_endpoints. intros (addr & info & port & _ & _ & Hp & ->).
    unfold ports_of in Hp. rewrite bool_decide_eq_false_2 in Hp by done.
    simpl in Hp. by apply list_elem_of_singleton in Hp as ->.
  - intros Hport Hs. apply Forall_forall. intros e.
    rewrite elem_of_endpoints. intros (addr & info & port & _ & _ & Hp & ->).
    unfold ports_of in Hp. rewrite Hport, Hs in Hp. simpl in Hp.
    by apply list_elem_of_singleton in Hp as ->.
  - intros Hport Hs. split.
    + apply Forall_forall. intros e.
      rewrite elem_of_endpoints. intros (addr & info & port & _ & _ & Hp & ->).
      unfold ports_of in Hp. rewrite Hport, Hs in Hp. simpl in Hp.
      apply elem_of_cons in Hp as [-> | ->%list_elem_of_singleton]; [by left | by right].
    + intros addr info Hin Hf. rewrite !elem_of_endpoints.
      split; [exists addr, info, "80" | exists addr, info, "443"];
        (repeat split; try done); unfold ports_of; rewrite Hport, Hs; simpl.
      * by left.
      * right. by left.
  - intros Hport Hs1 Hs2.
    assert (ports_of URL = []) as Hports.
    { unfold ports_of. rewrite Hport. simpl.
      by rewrite !bool_decide_eq_false_2 by done. }
    unfold ipInfoToEndpoints. rewrite Hports, endpoints_in_order_bind.
    assert (visit ≫= endpoints_of THIPInfoFlagIsBogon [] = []) as ->; [| done].
    induction visit as [| entry visit IH]; [done |].
    change ((entry :: visit) ≫= endpoints_of THIPInfoFlagIsBogon [])
      with (endpoints_of THIPInfoFlagIsBogon [] entry
            ++ (visit ≫= endpoints_of THIPInfoFlagIsBogon [])).
    rewrite IH. unfold endpoints_of. by destruct (flagged_bogon _ _).
Qed.

(** X21. What [ipInfoToEndpoints] returns does not depend on the order in
    which the range loop comes to the entries of the map: the endpoints of
    one URL differ in their [Epnt], so that sorting by it leaves one
    order only. *)
Theorem ipInfoToEndpoints_any_visiting_order (URL : url_URL)
    (visit visit' : list (string * THIPInfo)) :
  visit ≡ₚ visit' ->
  ipInfoToEndpoints THIPInfoFlagIsBogon URL visit
  = ipInfoToEndpoints THIPInfoFlagIsBogon URL visit'.
Proof.
  intros Hperm.
  apply (Sorted_unique_strong by_Epnt).
  - intros x1 x2 (a1 & i1 & p1 & _ & _ & Hp1 & ->)%elem_of_endpoints
      (a2 & i2 & p2 & _ & _ & Hp2 & ->)%elem_of_endpoints H12 H21.
    unfold by_Epnt in *. simpl in *.
    pose proof (anti_symm String.le _ _ H12 H21) as Heq.
    by destruct (endpoint_inj URL _ _ _ _ Hp1 Hp2 Heq) as [-> ->].
  - apply sort_SliceStable_Sorted.
  - apply sort_SliceStable_Sorted.
  - unfold ipInfoToEndpoints.
    by rewrite !sort_SliceStable_Permutation, !endpoints_in_order_bind, Hperm.
Qed.

(** *** [newIPInfo] *)

Lemma lor_twice d flag : Z.lor (Z.lor d flag) flag = Z.lor d flag.
Proof. by rewrite <- Z.lor_assoc, Z.lor_diag. Qed.

(** The first loop: the flag of the probe. *)
Lemma probe_loop_lookup (epnts : list string) : forall (m : gmap string Z) addr,
  foldl (fun discoveredby epnt =>
           match net_SplitHostPort epnt with
           | Some (addr, _) =>
               if net_ParseIP addr
               then or_flag discoveredby addr THIPInfoFlagResolvedByProbe
               else discoveredby
           | None => discoveredby
           end) m epnts !! addr
  = if net_ParseIP addr
       && resolved_by_probe net_SplitHostPort {| TCPConnect := epnts |} addr
    then Some (Z.lor (default 0 (m !! addr)) THIPInfoFlagResolvedByProbe)
    else m !! addr.
Proof.
  unfold resolved_by_probe. simpl.
  induction epnts as [| epnt epnts IH]; intros m addr; simpl.
  - by rewrite andb_false_r.
  - rewrite IH.
    destruct (net_SplitHostPort epnt) as [[host port] |]; simpl; [| done].
    destruct (net_ParseIP host) eqn:Hip.
    + unfold or_flag. case_bool_decide as Hhost.
      * subst host. rewrite lookup_insert_eq, Hip. simpl.
        rewrite lor_twice. by destruct (existsb _ epnts).
      * by rewrite lookup_insert_ne.
    + case_bool_decide as Hhost; [| done].
      subst host. by rewrite Hip.
Qed.

(** The second loop: the flag of the test helper. *)
Lemma th_loop_lookup (addrs : list string) : forall (m : gmap string Z) addr,
  foldl (fun discoveredby addr =>
           if net_ParseIP addr
           then or_flag discoveredby addr THIPInfoFlagResolvedByTH
           else discoveredby) m addrs !! addr
  = if net_ParseIP addr && resolved_by_th addrs addr
    then Some (Z.lor (default 0 (m !! addr)) THIPInfoFlagResolvedByTH)
    else m !! addr.
Proof.
  unfold resolved_by_th.
  induction addrs as [| a addrs IH]; intros m addr; simpl.
  - by rewrite andb_false_r.
  - rewrite IH. destruct (decide (a = addr)) as [-> | Hne].
    + rewrite (bool_decide_eq_true_2 (addr ∈ addr :: addrs)) by (by left).
      destruct (net_ParseIP addr) eqn:Hip; simpl; [| done].
      unfold or_flag. rewrite lookup_insert_eq. simpl. rewrite lor_twice.
      by case_bool_decide.
    + assert (bool_decide (addr ∈ a :: addrs) = bool_decide (addr ∈ addrs)) as ->.
      { apply bool_decide_ext. rewrite elem_of_cons. naive_solver. }
      destruct (net_ParseIP a); [| done].
      unfold or_flag. by rewrite lookup_insert_ne.
Qed.

(** The last loop: one entry for each discovered address. *)
Lemma ipinfo_loop_lookup (discoveredby : gmap string Z) addr :
  map_fold (fun addr flags ipinfo =>
              let flags :=
                if IsBogon addr then Z.lor flags THIPInfoFlagIsBogon else flags in
              <[addr := {| ASN := measurexlite.int64 (LookupASN addr);
                           Flags := flags |}]> ipinfo)
    (∅ : gmap string THIPInfo) discoveredby !! addr
  = (fun flags =>
       {| ASN := measurexlite.int64 (LookupASN addr);
          Flags := if IsBogon addr then Z.lor flags THIPInfoFlagIsBogon
                   else flags |}) <$> discoveredby !! addr.
Proof.
  revert addr.
  apply (map_fold_weak_ind
           (fun (r : gmap string THIPInfo) (m : gmap string Z) =>
              forall addr,
                r !! addr
                = (fun flags =>
                     {| ASN := measurexlite.int64 (LookupASN addr);
                        Flags := if IsBogon addr
                                 then Z.lor flags THIPInfoFlagIsBogon
                                 else flags |}) <$> m !! addr)).
  - intros addr. by rewrite !lookup_empty.
  - intros i x m r Hfresh IH addr. simpl.
    destruct (decide (i = addr)) as [-> | Hne].
    + by rewrite !lookup_insert_eq.
    + by rewrite !lookup_insert_ne.
Qed.

(** What [newIPInfo] holds for an address. *)
Lemma newIPInfo_lookup (creq : ctrlRequest) (addrs : list string) (addr : string) :
  newIPInfo net_SplitHostPort net_ParseIP IsBogon LookupASN
    THIPInfoFlagResolvedByProbe THIPInfoFlagResolvedByTH THIPInfoFlagIsBogon
    creq addrs !! addr
  = if net_ParseIP addr
       && (resolved_by_probe net_SplitHostPort creq addr || resolved_by_th addrs addr)
    then Some {| ASN := measurexlite.int64 (LookupASN addr);
                 Flags :=
                   Z.lor (Z.lor (if resolved_by_probe net_SplitHostPort creq addr
                                 then THIPInfoFlagResolvedByProbe else 0)
                                (if resolved_by_th addrs addr
                                 then THIPInfoFlagResolvedByTH else 0))
                         (if IsBogon addr then THIPInfoFlagIsBogon else 0) |}
    else None.
Proof.
  unfold newIPInfo. rewrite ipinfo_loop_lookup, th_loop_lookup, probe_loop_lookup.
  destruct creq as [epnts]. simpl. rewrite lookup_empty. simpl.
  destruct (net_ParseIP addr); simpl; [| done].
  destruct (resolved_by_probe net_SplitHostPort {| TCPConnect := epnts |} addr),
    (resolved_by_th addrs addr), (IsBogon addr); simpl;
    rewrite ?Z.lor_0_r, ?Z.lor_0_l; done.
Qed.

(** X22. The map of [newIPInfo] has an entry exactly for the strings that
    parse as an IP address and are the host of an endpoint of the request
    or one of the addresses of the test helper.  The flags of the entry
    are the flag of the probe, if the address comes from the request, the
    flag of the test helper, if it is among its addresses, and the bogon
    flag, if the address is a bogon, and nothing else; its ASN is the one
    looked up for the address. *)
Theorem newIPInfo_entries (creq : ctrlRequest) (addrs : list string) (addr : string) :
  newIPInfo net_SplitHostPort net_ParseIP IsBogon LookupASN
    THIPInfoFlagResolvedByProbe THIPInfoFlagResolvedByTH THIPInfoFlagIsBogon
    creq addrs !! addr
  = if net_ParseIP addr
       && (resolved_by_probe net_SplitHostPort creq addr || resolved_by_th addrs addr)
    then Some {| ASN := measurexlite.int64 (LookupASN addr);
                 Flags :=
                   Z.lor (Z.lor (if resolved_by_probe net_SplitHostPort creq addr
                                 then THIPInfoFlagResolvedByProbe else 0)
                                (if resolved_by_th addrs addr
                                 then THIPInfoFlagResolvedByTH else 0))
                         (if IsBogon addr then THIPInfoFlagIsBogon else 0) |}
    else None.
Proof. apply newIPInfo_lookup. Qed.

(** X23. With three flags of which the bogon flag is not zero and has no
    bit in common with the two others, the endpoints generated from the
    map of [newIPInfo] are those of the addresses that parse as an IP
    address, were resolved by the probe or by the test helper, and are not
    bogons: a bogon never gets an endpoint, and every other such address
    gets one for each chosen port. *)
Theorem endpoints_of_newIPInfo (creq : ctrlRequest) (addrs : list string)
    (URL : url_URL) (visit : list (string * THIPInfo)) (e : endpointInfo) :
  THIPInfoFlagIsBogon <> 0 ->
  Z.land THIPInfoFlagResolvedByProbe THIPInfoFlagIsBogon = 0 ->
  Z.land THIPInfoFlagResolvedByTH THIPInfoFlagIsBogon = 0 ->
  visit ≡ₚ map_to_list
             (newIPInfo net_SplitHostPort net_ParseIP IsBogon LookupASN
                THIPInfoFlagResolvedByProbe THIPInfoFlagResolvedByTH
                THIPInfoFlagIsBogon creq addrs) ->
  e ∈ ipInfoToEndpoints THIPInfoFlagIsBogon URL visit
  <-> exists port,
        port ∈ ports_of URL
        /\ e = endpoint (Addr e) port
        /\ net_ParseIP (Addr e) = true
        /\ (resolved_by_probe net_SplitHostPort creq (Addr e) = true
            \/ resolved_by_th addrs (Addr e) = true)
        /\ IsBogon (Addr e) = false.
Proof.
  intros HB HP HT Hvisit. rewrite elem_of_endpoints.
  assert (forall addr info,
            (addr, info) ∈ visit /\ Z.land (Flags info) THIPInfoFlagIsBogon = 0
            <-> net_ParseIP addr = true
                /\ (resolved_by_probe net_SplitHostPort creq addr = true
                    \/ resolved_by_th addrs addr = true)
                /\ IsBogon addr = false
                /\ info = {| ASN := measurexlite.int64 (LookupASN addr);
                             Flags :=
                               Z.lor (if resolved_by_probe net_SplitHostPort creq addr
                                      then THIPInfoFlagResolvedByProbe else 0)
                                     (if resolved_by_th addrs addr
                                      then THIPInfoFlagResolvedByTH else 0) |})
    as Hentry.
  { intros addr info. rewrite Hvisit, elem_of_map_to_list, newIPInfo_lookup.
    destruct (net_ParseIP addr); simpl; [| naive_solver].
    destruct (resolved_by_probe net_SplitHostPort creq addr),
      (resolved_by_th addrs addr), (IsBogon addr); simpl;
      rewrite ?Z.lor_0_r, ?Z.lor_0_l;
      (split; [intros [[= <-] Hland]; simpl in Hland | intros (_ & Hor & Hb & ->)]);
      try discriminate; try (by destruct Hor);
      try (repeat split; try done; try (by left); try (by right));
      simpl; rewrite ?Z.land_lor_distr_l, ?HP, ?HT, ?Z.land_diag, ?Z.lor_0_l in *;
      try done; try (exfalso; apply HB; done).
    all: try (apply Z.lor_eq_0_iff in Hland as [_ ?]; by exfalso; apply HB). }
  split.
  - intros (addr & info & port & Hin & Hf & Hport & ->).
    destruct (proj1 (Hentry addr info) (conj Hin Hf)) as (Hip & Hres & Hbogon & _).
    by exists port.
  - intros (port & Hport & He & Hip & Hres & Hbogon).
    eexists (Addr e), _, port.
    destruct (proj2 (Hentry (Addr e) _) (conj Hip (conj Hres (conj Hbogon eq_refl))))
      as [Hin Hf].
    by repeat split.
Qed.

End IPInfo.

(** The sample request gives three entries, one of them a bogon, and the
    URL "http://..." four endpoints. *)
Example newIPInfo_sample :
  map_to_list sample_ipinfo ≡ₚ sample_visit
  /\ ipInfoToEndpoints 4 http_URL sample_visit
     = [ {| Addr := "93.184.216.34"; Epnt := "93.184.216.34:443"; TLS := true |};
         {| Addr := "93.184.216.34"; Epnt := "93.184.216.34:80"; TLS := false |};
         {| Addr := "2606:2800:220:1::1"; Epnt := "[2606:2800:220:1::1]:443";
            TLS := true |};
         {| Addr := "2606:2800:220:1::1"; Epnt := "[2606:2800:220:1::1]:80";
            TLS := false |} ].
Proof.
  split; [| by vm_compute].
  apply NoDup_Permutation.
  - apply NoDup_map_to_list.
  - apply (NoDup_fmap_1 fst). apply (bool_decide_unpack _). by vm_compute.
  - intros [addr info]. rewrite elem_of_map_to_list.
    unfold sample_ipinfo. rewrite newIPInfo_lookup. unfold sample_visit.
    rewrite !elem_of_cons, elem_of_nil. split.
    + destruct (sample_ParseIP addr) eqn:Hip; [| done].
      unfold sample_ParseIP in Hip.
      repeat case_bool_decide; try discriminate; subst; vm_compute;
        intros [= <-]; tauto.
    + intros [[= -> ->] | [[= -> ->] | [[= -> ->] | []]]]; by vm_compute.
Qed.

Lemma ipInfoToEndpoints_skips_bogons_and_covers_the_rest_witness :
  length (ipInfoToEndpoints 4 http_URL sample_visit) = 4%nat.
Proof.
  destruct (ipInfoToEndpoints_skips_bogons_and_covers_the_rest 4 http_URL
              sample_visit) as (_ & _ & Hlen).
  exact Hlen.
Defined.

Lemma ipInfoToEndpoints_ports_as_documented_witness :
  ipInfoToEndpoints 4 ftp_URL sample_visit = [].
Proof.
  destruct (ipInfoToEndpoints_ports_as_documented 4 ftp_URL sample_visit)
    as (_ & _ & _ & H).
  apply H; [reflexivity | discriminate | discriminate].
Defined.

Lemma ipInfoToEndpoints_any_visiting_order_witness :
  ipInfoToEndpoints 4 http_URL sample_visit
  = ipInfoToEndpoints 4 http_URL (reverse sample_visit).
Proof.
  apply ipInfoToEndpoints_any_visiting_order.
  symmetry. apply reverse_Permutation.
Defined.

Lemma endpoints_of_newIPInfo_witness :
  endpoint "93.184.216.34" "80"
  ∈ ipInfoToEndpoints 4 http_URL (map_to_list sample_ipinfo).
Proof.
  apply (endpoints_of_newIPInfo sample_SplitHostPort sample_ParseIP sample_IsBogon
           sample_LookupASN 1 2 4 sample_request sample_addrs http_URL
           (map_to_list sample_ipinfo)).
  - discriminate.
  - reflexivity.
  - reflexivity.
  - reflexivity.
  - exists "80". split; [by left |]. split; [reflexivity |].
    split; [reflexivity |]. split; [by left | reflexivity].
Defined.

End ipinfo_spec.
